(** * Spanner query-plan display: [googlecloudsdk/command_lib/spanner/sql.py]

    A shallow embedding of the plan-tree builder ([_ConvertToTree]), the
    tree renderer ([Node.PrettyPrint]) and the statistics lookup
    ([_GetAdditionalProperty]), with the properties of the specification
    proved (or refuted) on the embedding.

    Conventions of the embedding:
    - Python integers are [Z]; an optional message field is an [option];
      the truth value Python gives to [node.index] is [truthy].
    - [node_dict] is a [gmap Z Node]; [node_dict[k] = n] is [<[k:=n]>],
      [node_dict[k]] raises [KeyError k] when [k] is not a key.
    - A [Node] object is mutated ([children.append]) only inside the loop
      iteration that creates it, before it is stored in [node_dict]; once
      stored it is only read.  A [Node] is therefore modelled as a value.
    - The output stream is the list of lines printed so far; [out.Print]
      adds one line at the end.
    - Exceptions are an explicit [outcome]. *)

From stdpp Require Import gmap strings list fin_maps pretty.

Open Scope string_scope.
Open Scope list_scope.
Open Scope stdpp_scope.
Open Scope Z_scope.

(** ** Messages of the server response *)

Module Messages.

(** [spanner_v1_messages.PlanNode.ChildLink] *)
Record ChildLink := MkChildLink { childIndex : Z }.

(** [spanner_v1_messages.PlanNode]: [index] is [None] when the field is
    not set. *)
Record PlanNode := MkPlanNode {
  index : option Z;
  kind : string;
  displayName : string;
  childLinks : list ChildLink
}.

(** An entry of [additionalProperties].  [value] is [None] when the
    object has no attribute [value] ([hasattr(prop, 'value')] is false),
    and [Some v] when it has one, [v] being what the attribute holds:
    [None] is Python's [None] (what a message field holds when it is not
    set), [Some s] a string. *)
Record Property := MkProperty {
  key : string;
  value : option (option string)
}.

#[global] Instance ChildLink_eq_dec : EqDecision ChildLink.
Proof. solve_decision. Defined.
#[global] Instance PlanNode_eq_dec : EqDecision PlanNode.
Proof. solve_decision. Defined.
#[global] Instance Property_eq_dec : EqDecision Property.
Proof. solve_decision. Defined.

End Messages.
Export Messages.

(** ** Exceptions and results *)

Inductive exn :=
| KeyError (k : Z)
| AttributeError (attr : string).

(** [KeyError] is a subclass of [LookupError]; [AttributeError] is not. *)
Definition is_LookupError (e : exn) : bool :=
  match e with
  | KeyError _ => true
  | AttributeError _ => false
  end.

Inductive outcome (A : Type) :=
| Returned (a : A)
| Raised (e : exn).
Arguments Returned {A} a.
Arguments Raised {A} e.

(** Sequencing: an exception raised by the first computation propagates. *)
#[global] Instance outcome_ret : MRet outcome := λ A a, Returned a.
#[global] Instance outcome_bind : MBind outcome := λ A B f m,
  match m with
  | Returned a => f a
  | Raised e => Raised e
  end.

(** The truth value of an optional integer: [None] and [0] are false. *)
Definition truthy (i : option Z) : bool :=
  match i with
  | Some k => negb (k =? 0)
  | None => false
  end.

(** ** [_GetAdditionalProperty]

    The result is a Python value: [None] is Python's [None], which the
    function returns when the matching entry's attribute holds it. *)

Fixpoint _GetAdditionalProperty (properties : list Property)
    (property_key : string) (not_found_value : string) : option string :=
  match properties with
  | [] => Some not_found_value
  | prop :: rest =>
      if String.eqb (key prop) property_key then
        match value prop with
        | Some v => v                      (* return prop.value *)
        | None => Some not_found_value     (* break *)
        end
      else _GetAdditionalProperty rest property_key not_found_value
  end.

(** ** [class Node] *)

Unset Elimination Schemes.
Inductive Node := MkNode {
  properties : PlanNode;
  children : list Node
}.
Set Elimination Schemes.

Section Node_ind.
Variable P : Node → Prop.
Hypothesis P_node : ∀ p cs, Forall P cs → P (MkNode p cs).

Fixpoint Node_ind (n : Node) : P n :=
  match n with
  | MkNode p cs =>
      P_node p cs
        ((fix go (l : list Node) : Forall P l :=
            match l with
            | [] => Forall_nil_2 P
            | c :: l' => Forall_cons_2 P c l' (Node_ind c) (go l')
            end) cs)
  end.
End Node_ind.

(** The output stream: the lines printed so far, oldest first. *)
Definition Out := list string.

Definition Print (out : Out) (line : string) : Out := out ++ [line].

(** ['{}{} {} {}'.format(prepend, stub, kind, displayName)] *)
Definition _DisplayKindAndName (self : Node) (out : Out)
    (prepend stub : string) : Out :=
  let kind_and_name :=
    prepend +:+ stub +:+ " " +:+ kind (properties self) +:+ " "
      +:+ displayName (properties self) in
  Print out kind_and_name.

(** [prepend or ''] *)
Definition or_empty (prepend : option string) : string :=
  match prepend with
  | Some s => s
  | None => ""
  end.

Definition stub_of (is_last is_root : bool) : string :=
  if is_root then "" else if is_last then "\-" else "+-".

(** [for idx, x in enumerate(xs): s = f(idx, x, s)], starting at [idx]. *)
Definition for_enumerate {A S} (f : Z → A → S → S) : list A → Z → S → S :=
  fix go xs idx s :=
    match xs with
    | [] => s
    | x :: xs' => go xs' (idx + 1) (f idx x s)
    end.

Fixpoint PrettyPrint (self : Node) (out : Out) (prepend : option string)
    (is_last is_root : bool) : Out :=
  match self with
  | MkNode _ self_children =>
      let prepend := or_empty prepend in
      let stub := stub_of is_last is_root in
      let out := _DisplayKindAndName self out prepend stub in
      for_enumerate
        (λ idx child out,
           let is_last_child := idx =? Z.of_nat (length self_children) - 1 in
           let indent := "   " in
           let child_prepend :=
             prepend +:+ (if is_last then " " else "|") +:+ indent in
           PrettyPrint child out (Some child_prepend) is_last_child false)
        self_children 0 out
  end.

(** ** [_ConvertToTree] *)

(** The inner loop
    [for link in node.childLinks: n.children.append(node_dict[link.childIndex])]
    on the children list of the node under construction.  The guard
    [if node.childLinks:] only skips the loop over an empty list. *)
Fixpoint attach (node_dict : gmap Z Node) (links : list ChildLink)
    (n_children : list Node) : outcome (list Node) :=
  match links with
  | [] => Returned n_children
  | link :: rest =>
      match node_dict !! childIndex link with
      | Some c => attach node_dict rest (n_children ++ [c])
      | None => Raised (KeyError (childIndex link))
      end
  end.

(** What one iteration of the outer loop does to the control flow. *)
Inductive flow :=
| Next (node_dict : gmap Z Node)
| Return (n : Node).

(** The body of [for node in reversed(plan_nodes)]. *)
Definition body (node : PlanNode) (node_dict : gmap Z Node) : outcome flow :=
  cs ← attach node_dict (childLinks node) [];
  let n := MkNode node cs in
  match index node with
  | Some i => if negb (i =? 0) then Returned (Next (<[i := n]> node_dict))
              else Returned (Return n)
  | None => Returned (Return n)
  end.

(** The outer loop over an already reversed list; falling off the end of
    the function returns [None]. *)
Fixpoint scan (nodes : list PlanNode) (node_dict : gmap Z Node)
    : outcome (option Node) :=
  match nodes with
  | [] => Returned None
  | node :: rest =>
      f ← body node node_dict;
      match f with
      | Next node_dict' => scan rest node_dict'
      | Return n => Returned (Some n)
      end
  end.

Definition _ConvertToTree (plan_nodes : list PlanNode) : outcome (option Node) :=
  scan (reverse plan_nodes) ∅.

(** ** [DisplayQueryPlan]

    [result.stats.queryPlan.planNodes] is passed directly.  The result is
    the outcome of the call together with the output stream after it. *)
Definition DisplayQueryPlan (plan_nodes : list PlanNode) (out : Out)
    : outcome unit * Out :=
  match _ConvertToTree plan_nodes with
  | Raised e => (Raised e, out)
  | Returned None => (Raised (AttributeError "PrettyPrint"), out)
  | Returned (Some node_tree_root) =>
      (Returned (), PrettyPrint node_tree_root out None true true)
  end.

(** ** [DisplayQueryAggregateStats] and [DisplayQueryResults]

    [resource_printer.Print] and [encoding.MessageToPyValue] belong to
    other packages: they are parameters of the two functions. *)

(** The dictionary [stats]: [get_prop] is
    [partial(_GetAdditionalProperty, query_stats.additionalProperties)],
    so the default is "Unknown". *)
Definition aggregate_stats (additionalProperties : list Property)
    : gmap string (option string) :=
  let get_prop := λ k, _GetAdditionalProperty additionalProperties k "Unknown" in
  <["rows_scanned" := get_prop "rows_scanned"]>
    (<["rows_returned" := get_prop "rows_returned"]>
       (<["cpu_time" := get_prop "cpu_time"]>
          (<["total_elapsed_time" := get_prop "elapsed_time"]> ∅))).

(** [spanner_v1_messages.StructType.Field] and a row of the result. *)
Record Field := MkField { name : string }.
Record Row (Entry : Type) := MkRow { entry : Entry }.
Arguments MkRow {Entry} entry.
Arguments entry {Entry} r.

(** The double quote character. *)
Definition dquote : string := String (Ascii.ascii_of_nat 34) "".

(** ['row.slice({0}).join():label="{1}"'.format(i, f)]: an integer is
    formatted in decimal. *)
Definition column_format (i : nat) (f : string) : string :=
  "row.slice(" +:+ pretty i +:+ ").join():label=" +:+ dquote +:+ f +:+ dquote.

(** [sep.join(strings)] *)
Fixpoint join (sep : string) (strings : list string) : string :=
  match strings with
  | [] => ""
  | [x] => x
  | x :: rest => x +:+ sep +:+ join sep rest
  end.

(** [table_format], from the list [fields] of field names. *)
Definition table_format (fields : list string) : string :=
  join "," (imap column_format fields).

Section Display.
Context {Entry PyValue : Type}.
Variable resource_printer_Print : ∀ {Data : Type}, Data → string → Out → Out.
Variable MessageToPyValue : Entry → PyValue.

Definition DisplayQueryAggregateStats (additionalProperties : list Property)
    (out : Out) : Out :=
  let stats := aggregate_stats additionalProperties in
  resource_printer_Print stats
    "table[box](total_elapsed_time, cpu_time, rows_returned, rows_scanned)"
    out.

(** [result.metadata.rowType.fields] and [result.rows] are passed
    directly. *)
Definition DisplayQueryResults (rowType_fields : list Field)
    (result_rows : list (Row Entry)) (out : Out) : Out :=
  let fields := name <$> rowType_fields in
  let rows : list (gmap string PyValue) :=
    (λ row, {[ "row" := MessageToPyValue (entry row) ]}) <$> result_rows in
  resource_printer_Print rows ("table(" +:+ table_format fields +:+ ")") out.

End Display.

(** ** Specification-side definitions *)

(** *** Well-formed plans (specification, section 3) *)

(** The indices carried by the records of a list, in list order. *)
Definition indices (l : list PlanNode) : list Z := omap index l.

(** Every [childIndex] referenced by the records of a list, in order. *)
Definition child_indices (l : list PlanNode) : list Z :=
  l ≫= (λ r, childIndex <$> childLinks r).

(** Children appear after their parents: every link of a record names the
    index of a record further down the list. *)
Fixpoint refs_forward (l : list PlanNode) : Prop :=
  match l with
  | [] => True
  | r :: post =>
      Forall (λ link, childIndex link ∈ indices post) (childLinks r)
      ∧ refs_forward post
  end.

#[global] Instance refs_forward_dec l : Decision (refs_forward l).
Proof. induction l; simpl; apply _. Defined.

(** The invariant of section 3: exactly one record has no index; the
    indices of the others are unique; every reference names a record
    placed after the referring one (so references are acyclic); and every
    record that has an index is referenced by exactly one link (so the
    reference graph is a tree, rooted at the record without index). *)
Definition well_formed (plan_nodes : list PlanNode) : Prop :=
  length (filter (λ r, index r = None) plan_nodes) = 1%nat
  ∧ NoDup (indices plan_nodes)
  ∧ refs_forward plan_nodes
  ∧ NoDup (child_indices plan_nodes)
  ∧ Forall (λ i, i ∈ child_indices plan_nodes) (indices plan_nodes).

#[global] Instance well_formed_dec l : Decision (well_formed l).
Proof. unfold well_formed. apply _. Defined.

(** No record carries the index [0]. *)
Definition no_zero_index (plan_nodes : list PlanNode) : Prop :=
  Forall (λ r, index r ≠ Some 0) plan_nodes.

(** *** The tree equivalent to a plan *)

(** [tree_of recs r n]: [n] is the tree unfolding of record [r] in the
    reference graph of [recs]: it wraps [r], and its children are, link by
    link and in link order, the unfoldings of the records the links name. *)
#[warnings="-register-all"]
Inductive tree_of (recs : list PlanNode) : PlanNode → Node → Prop :=
| tree_of_node r cs :
    Forall2 (λ link c, ∃ r', r' ∈ recs ∧ index r' = Some (childIndex link)
                             ∧ tree_of recs r' c)
            (childLinks r) cs →
    tree_of recs r (MkNode r cs).

(** All the nodes of a tree, in pre-order. *)
Fixpoint all_nodes (n : Node) : list Node :=
  match n with
  | MkNode _ cs => n :: concat (map all_nodes cs)
  end.

(** The records the nodes of a tree were built from, in pre-order. *)
Definition records (n : Node) : list PlanNode := properties <$> all_nodes n.

(** A node keeps the declared child order: its children were built, one by
    one and in the same order, from the records its [childLinks] name. *)
Definition children_in_link_order (n : Node) : Prop :=
  Forall2 (λ link c, index (properties c) = Some (childIndex link))
          (childLinks (properties n)) (children n).

(** *** The renderer as the specification words it (section 4.2) *)

Inductive position := Root | LastChild | InnerChild.

Definition spec_stub (pos : position) : string :=
  match pos with
  | Root => ""
  | LastChild => "\-"
  | InnerChild => "+-"
  end.

Definition spec_child_prefix (prefix : string) (pos : position) : string :=
  prefix +:+ (match pos with InnerChild => "|" | _ => " " end) +:+ "   ".

(** The positions of [n] siblings: all inner but the last one. *)
Definition sibling_positions (n : nat) : list position :=
  match n with
  | O => []
  | S m => replicate m InnerChild ++ [LastChild]
  end.

Fixpoint render_spec (pos : position) (prefix : string) (n : Node)
    : list string :=
  match n with
  | MkNode p cs =>
      (prefix +:+ spec_stub pos +:+ " " +:+ kind p +:+ " " +:+ displayName p)
      :: concat (zip_with
                   (λ c cpos, render_spec cpos (spec_child_prefix prefix pos) c)
                   cs (sibling_positions (length cs)))
  end.

(** The position the specification gives to a call of [PrettyPrint]. *)
Definition pos_of (is_last is_root : bool) : position :=
  if is_root then Root else if is_last then LastChild else InnerChild.

(** *** Auxiliary definitions for the proofs *)

(** The dictionary after the loop has gone through all of [nodes] without
    raising and without returning; [None] when it does not get that far. *)
Fixpoint run (nodes : list PlanNode) (node_dict : gmap Z Node)
    : option (gmap Z Node) :=
  match nodes with
  | [] => Some node_dict
  | node :: rest =>
      match body node node_dict with
      | Returned (Next node_dict') => run rest node_dict'
      | _ => None
      end
  end.

(** What the dictionary holds at every point of the loop: its keys are
    non-zero, the node stored under a key was built from a record of
    [recs] carrying that key as index, and all the nodes below it were
    built from records of [recs] and keep the declared child order. *)
Definition node_ok (recs : list PlanNode) (n : Node) : Prop :=
  Forall (λ m, properties m ∈ recs ∧ children_in_link_order m) (all_nodes n).

Definition dict_inv (recs : list PlanNode) (d : gmap Z Node) : Prop :=
  ∀ k n, d !! k = Some n →
    k ≠ 0 ∧ index (properties n) = Some k ∧ node_ok recs n.

(** The indices of a list that no link of the list refers to: the roots
    of the forest built so far. *)
Definition unreferenced (l : list PlanNode) : list Z :=
  filter (λ k, k ∉ child_indices l) (indices l).

(** The records of the trees stored under the keys [ks]. *)
Definition forest (d : gmap Z Node) (ks : list Z) : list PlanNode :=
  ks ≫= (λ k, from_option records [] (d !! k)).

(** A record with its [index] field replaced. *)
Definition set_index (i : option Z) (r : PlanNode) : PlanNode :=
  MkPlanNode i (kind r) (displayName r) (childLinks r).

(** *** Example inputs *)

(** The property list of the "stat default" example, as the caller passes
    it: the entries are messages, so the second one has the attribute
    [value], holding [None]. *)
Definition stat_example : list Property :=
  [MkProperty "elapsed_time" (Some (Some "5ms")); MkProperty "cpu_time" (Some None)].

(** The same list, the second entry being an object without attribute
    [value]. *)
Definition stat_example_no_attribute : list Property :=
  [MkProperty "elapsed_time" (Some (Some "5ms")); MkProperty "cpu_time" None].

(** The "two-child rendering" example, as the specification gives it. *)
Definition two_child_root : PlanNode :=
  MkPlanNode None "R" "X" [MkChildLink 0; MkChildLink 1].
Definition two_child_0 : PlanNode := MkPlanNode (Some 0) "A" "Foo" [].
Definition two_child_1 : PlanNode := MkPlanNode (Some 1) "B" "Bar" [].
Definition two_child_plan : list PlanNode :=
  [two_child_root; two_child_0; two_child_1].

(** The same plan with the children indexed [i] and [j]. *)
Definition two_child_plan_at (i j : Z) : list PlanNode :=
  [MkPlanNode None "R" "X" [MkChildLink i; MkChildLink j];
   MkPlanNode (Some i) "A" "Foo" [];
   MkPlanNode (Some j) "B" "Bar" []].

(** The "single-node tree" example. *)
Definition single_node_plan : list PlanNode :=
  [MkPlanNode None "Root" "X" []].

(** A well-formed plan whose record with index [0] has two children,
    linked in the order 2 then 1. *)
Definition zero_subtree_plan : list PlanNode :=
  [MkPlanNode None "R" "X" [MkChildLink 0];
   MkPlanNode (Some 0) "A" "Zero" [MkChildLink 2; MkChildLink 1];
   MkPlanNode (Some 1) "B" "One" [];
   MkPlanNode (Some 2) "B" "Two" []].

(** A record before the root whose link names no record at all. *)
Definition dangling_before_root : list PlanNode :=
  [MkPlanNode (Some 5) "A" "Foo" [MkChildLink 99];
   MkPlanNode None "R" "X" []].

(** A plan whose only record carries the index [0]. *)
Definition only_index_zero : list PlanNode :=
  [MkPlanNode (Some 0) "R" "X" []].

(** A root whose single child carries the index [0]. *)
Definition parent_of_zero : list PlanNode :=
  [MkPlanNode None "R" "X" [MkChildLink 0]; two_child_0].

(** *** Definitions for the further properties *)

(** The nodes of a tree in pre-order, each with its depth, the root of
    the tree being at depth [d]. *)
Fixpoint nodes_with_depth (n : Node) (d : nat) : list (nat * Node) :=
  match n with
  | MkNode _ cs => (d, n) :: concat (map (λ c, nodes_with_depth c (S d)) cs)
  end.

(** A line that shows a node: some lead, then the kind and the name. *)
Definition shows (line : string) (m : Node) : Prop :=
  ∃ lead, line = lead +:+ " " +:+ kind (properties m) +:+ " "
                   +:+ displayName (properties m).

(** The width of the line of a node at depth [d] below a root rendered
    without prefix: four columns per level, the two-character stub of a
    child, and the two separating spaces. *)
Definition line_width (d : nat) (m : Node) : nat :=
  (4 * d + (match d with O => 0 | S _ => 2 end) + 2
   + String.length (kind (properties m))
   + String.length (displayName (properties m)))%nat.

(** Every node of a tree was built from a record with a true index. *)
Definition all_truthy (n : Node) : Prop :=
  Forall (λ m, truthy (index (properties m)) = true) (all_nodes n).

(** The first record of a list that carries the index [k]. *)
Fixpoint first_with_index (k : Z) (l : list PlanNode) : option PlanNode :=
  match l with
  | [] => None
  | x :: l' =>
      if decide (index x = Some k) then Some x else first_with_index k l'
  end.

(** The keys [DisplayQueryAggregateStats] looks up. *)
Definition stat_keys : list string :=
  ["elapsed_time"; "cpu_time"; "rows_returned"; "rows_scanned"].

(** The labels of the dictionary it builds. *)
Definition stat_labels : list string :=
  ["total_elapsed_time"; "cpu_time"; "rows_returned"; "rows_scanned"].

(** A plan whose references form a diamond: record 3 has two parents. *)
Definition diamond_plan : list PlanNode :=
  [MkPlanNode None "R" "X" [MkChildLink 1; MkChildLink 2];
   MkPlanNode (Some 1) "A" "Left" [MkChildLink 3];
   MkPlanNode (Some 2) "A" "Right" [MkChildLink 3];
   MkPlanNode (Some 3) "B" "Shared" []].

(** A plan in which two records carry the index [1]. *)
Definition duplicate_index_plan : list PlanNode :=
  [MkPlanNode None "R" "X" [MkChildLink 1];
   MkPlanNode (Some 1) "A" "Near" [];
   MkPlanNode (Some 1) "B" "Far" []].

(** * Properties *)

(** ** Property lookup *)

Section PropertyLookup.
Implicit Types (properties : list Property) (k d : string).

Lemma lookup_skip pre properties k d :
  Forall (λ q, key q ≠ k) pre →
  _GetAdditionalProperty (pre ++ properties) k d
  = _GetAdditionalProperty properties k d.
Proof.
  induction 1 as [|q pre Hq _ IH]; [done|]. simpl.
  by destruct (String.eqb_spec (key q) k).
Qed.

Lemma lookup_hit p post k d :
  key p = k →
  _GetAdditionalProperty (p :: post) k d = default (Some d) (value p).
Proof.
  intros <-. simpl. rewrite String.eqb_refl. by destruct (value p).
Qed.

(** The first entry whose key equals the searched key decides, whatever
    follows it: the result is what its attribute [value] holds, also when
    that is [None], and the default when it has no such attribute.  When
    no entry matches, the result is the default. *)
Lemma lookup_first_match :
  (∀ pre p post k d,
     Forall (λ q, key q ≠ k) pre → key p = k →
     _GetAdditionalProperty (pre ++ p :: post) k d
     = match value p with Some v => v | None => Some d end)
  ∧ (∀ properties k d,
       Forall (λ q, key q ≠ k) properties →
       _GetAdditionalProperty properties k d = Some d).
Proof.
  split.
  - intros pre p post k d Hpre Hp.
    rewrite lookup_skip, (lookup_hit _ _ _ _ Hp) by done.
    by destruct (value p).
  - intros properties k d Hall.
    rewrite <-(app_nil_r properties). by rewrite lookup_skip.
Qed.

End PropertyLookup.

(** C7. On the example list of the specification, whose second entry is
    a message with key "cpu_time" and no value set, the look-up of
    "cpu_time" with default "Unknown" does not return "Unknown": the
    entry has the attribute [value], so [hasattr] holds and the [None]
    the attribute holds is returned.  The other two look-ups are as the
    specification says: "5ms" for "elapsed_time" and "Unknown" for
    "rows_scanned".  The fall-back on the default works only for an
    entry that lacks the attribute altogether. *)
Theorem C7_lookup_unset_value :
  _GetAdditionalProperty stat_example "cpu_time" "Unknown" = None
  ∧ _GetAdditionalProperty stat_example "cpu_time" "Unknown" ≠ Some "Unknown"
  ∧ _GetAdditionalProperty stat_example "elapsed_time" "Unknown" = Some "5ms"
  ∧ _GetAdditionalProperty stat_example "rows_scanned" "Unknown"
    = Some "Unknown"
  ∧ _GetAdditionalProperty stat_example_no_attribute "cpu_time" "Unknown"
    = Some "Unknown".
Proof. split_and!; (reflexivity || discriminate). Qed.

(** ** The renderer *)

Section Renderer.

Lemma append_assoc (a b c : string) : (a +:+ b) +:+ c = a +:+ b +:+ c.
Proof.
  induction a as [|x a IH]; [done|].
  change (String x ((a +:+ b) +:+ c) = String x (a +:+ b +:+ c)).
  by rewrite IH.
Qed.

Lemma stub_of_spec is_last is_root :
  stub_of is_last is_root = spec_stub (pos_of is_last is_root).
Proof. by destruct is_root, is_last. Qed.

(** The loop over the children, against the sibling positions. *)
Lemma for_enumerate_render (f : Z → Node → Out → Out) cp (len : nat) :
  ∀ cs idx out,
    (∀ i c o, c ∈ cs →
       f i c o = o ++ render_spec (pos_of (i =? Z.of_nat len - 1) false) cp c) →
    idx + Z.of_nat (length cs) = Z.of_nat len →
    for_enumerate f cs idx out
    = out ++ concat (zip_with (λ c cpos, render_spec cpos cp c) cs
                       (sibling_positions (length cs))).
Proof.
  induction cs as [|c cs IH]; intros idx out Hf Hlen.
  { simpl. by rewrite app_nil_r. }
  simpl for_enumerate. rewrite Hf by left.
  destruct cs as [|c' cs].
  - simpl in *. assert ((idx =? Z.of_nat len - 1) = true) as -> by lia.
    by rewrite app_nil_r.
  - rewrite IH; [|by intros; apply Hf; right|simpl length in *; lia].
    assert ((idx =? Z.of_nat len - 1) = false) as ->
      by (simpl length in *; lia).
    simpl. by rewrite <-app_assoc.
Qed.

Lemma PrettyPrint_render n :
  ∀ out prepend is_last is_root,
    (is_root = true → is_last = true) →
    PrettyPrint n out prepend is_last is_root
    = out ++ render_spec (pos_of is_last is_root) (or_empty prepend) n.
Proof.
  induction n as [p cs IH] using Node_ind;
    intros out prepend is_last is_root Hroot.
  assert (or_empty prepend +:+ (if is_last then " " else "|") +:+ "   "
          = spec_child_prefix (or_empty prepend) (pos_of is_last is_root))
    as Hcp.
  { unfold spec_child_prefix.
    destruct is_root, is_last; try done. by discriminate Hroot. }
  simpl PrettyPrint.
  rewrite (for_enumerate_render _
             (spec_child_prefix (or_empty prepend) (pos_of is_last is_root))
             (length cs)); [| |simpl; lia].
  - unfold _DisplayKindAndName, Print. simpl.
    by rewrite <-app_assoc, stub_of_spec.
  - intros i c o Hc. rewrite Forall_forall in IH.
    rewrite (IH c Hc) by done. simpl. by rewrite Hcp.
Qed.

(** Every line written for a node and its descendants starts with the
    prefix the node was given. *)
Lemma render_spec_prefix n :
  ∀ pos prefix,
    Forall (λ line, ∃ s, line = prefix +:+ s) (render_spec pos prefix n).
Proof.
  induction n as [p cs IH] using Node_ind; intros pos prefix. simpl.
  constructor; [by eexists|].
  apply Forall_concat. generalize (sibling_positions (length cs)).
  induction IH as [|c cs Hc _ IHcs]; intros [|cpos ps]; simpl;
    try by constructor.
  constructor; [|apply IHcs].
  eapply Forall_impl; [apply Hc|]. intros line [s ->].
  unfold spec_child_prefix. rewrite !append_assoc. by eexists.
Qed.

Lemma render_spec_below n pos prefix :
  Forall (λ line, ∃ s, line = spec_child_prefix prefix pos +:+ s)
         (tail (render_spec pos prefix n)).
Proof.
  destruct n as [p cs]. simpl.
  apply Forall_concat. generalize (sibling_positions (length cs)).
  induction cs as [|c cs IHcs]; intros [|cpos ps]; simpl;
    try by constructor.
  constructor; [apply render_spec_prefix|apply IHcs].
Qed.

End Renderer.

(** The child prefix follows [is_last] alone.  A call that flags the root
    as not last, which neither [DisplayQueryPlan] nor the recursion ever
    makes, draws a bar below the root. *)
Example PrettyPrint_root_flagged_not_last :
  PrettyPrint (MkNode two_child_root [MkNode two_child_1 []]) [] None false true
  = [" R X"; "|   \- B Bar"].
Proof. reflexivity. Qed.

(** C9. Rendering from the root context ([is_last] and [is_root] true, the
    defaults, as [DisplayQueryPlan] calls it), and rendering a child
    ([is_root] false, as the recursion calls it), write exactly the lines
    of the specification's renderer: the stub is empty for the root, "\-" for a last child and
    "+-" otherwise, and all the children of a node get the node's prefix
    followed by a space (last child or root) or "|" (otherwise) and three
    spaces.  Below a last child or the root, every line carries a space in
    the connector column: no vertical connector extends below it. *)
Theorem C9_render_stub_and_prefix :
  (∀ n out, PrettyPrint n out None true true = out ++ render_spec Root "" n)
  ∧ (∀ n out prefix,
       PrettyPrint n out (Some prefix) true true = out ++ render_spec Root prefix n)
  ∧ (∀ n out prefix is_last,
       PrettyPrint n out (Some prefix) is_last false
       = out ++ render_spec (if is_last then LastChild else InnerChild) prefix n)
  ∧ (∀ p cs pos prefix,
       render_spec pos prefix (MkNode p cs)
       = (prefix +:+ spec_stub pos +:+ " " +:+ kind p +:+ " " +:+ displayName p)
         :: concat (zip_with (λ c cpos, render_spec cpos
                                (prefix +:+ (match pos with
                                             | InnerChild => "|"
                                             | _ => " "
                                             end) +:+ "   ") c)
                      cs (sibling_positions (length cs))))
  ∧ (∀ n out prefix is_root,
       ∃ line below,
         PrettyPrint n out (Some prefix) true is_root = out ++ line :: below
         ∧ Forall (λ l, ∃ s, l = prefix +:+ " " +:+ s) below).
Proof.
  split_and!.
  - intros n out. by rewrite PrettyPrint_render.
  - intros n out prefix. by rewrite PrettyPrint_render.
  - intros n out prefix is_last. by rewrite PrettyPrint_render.
  - done.
  - intros n out prefix is_root.
    rewrite PrettyPrint_render by done. simpl or_empty.
    pose proof (render_spec_below n (pos_of true is_root) prefix) as Hbelow.
    destruct (render_spec (pos_of true is_root) prefix n) as [|line below] eqn:E.
    { by destruct n. }
    exists line, below. split; [done|]. simpl in Hbelow.
    eapply Forall_impl; [apply Hbelow|]. intros l [s ->].
    unfold spec_child_prefix. destruct is_root; simpl pos_of;
      rewrite !append_assoc; by eexists.
Qed.

(** ** The builder *)

Section Builder.
Implicit Types (d : gmap Z Node) (l post pre : list PlanNode)
  (r node : PlanNode) (n : Node) (links : list ChildLink).

(** *** The inner loop *)

Lemma attach_Returned d links :
  ∀ acc cs, attach d links acc = Returned cs →
    ∃ cs', cs = acc ++ cs'
           ∧ Forall2 (λ link c, d !! childIndex link = Some c) links cs'.
Proof.
  induction links as [|link links IH]; intros acc cs; simpl.
  - intros [= <-]. exists []. by rewrite app_nil_r.
  - destruct (d !! childIndex link) as [c|] eqn:Hc; [|done].
    intros (cs' & -> & Hcs')%IH. exists (c :: cs').
    rewrite <-app_assoc. split; [done|by constructor].
Qed.

Lemma attach_ok d links acc :
  Forall (λ link, is_Some (d !! childIndex link)) links →
  ∃ cs, attach d links acc = Returned (acc ++ cs).
Proof.
  intros Hall. revert acc.
  induction Hall as [|link links [c Hc] _ IH]; intros acc; simpl.
  - exists []. by rewrite app_nil_r.
  - rewrite Hc. destruct (IH (acc ++ [c])) as [cs ->].
    exists (c :: cs). by rewrite <-app_assoc.
Qed.

Lemma attach_fail d links acc link :
  link ∈ links → d !! childIndex link = None →
  ∃ k, attach d links acc = Raised (KeyError k) ∧ d !! k = None.
Proof.
  intros Hin Hnone. revert acc.
  induction links as [|link' links IH]; intros acc; [by inv Hin|].
  simpl. destruct (d !! childIndex link') as [c|] eqn:Hc.
  - apply IH. apply elem_of_cons in Hin as [->|Hin]; [congruence|done].
  - by eexists.
Qed.

Lemma attach_cases d links acc :
  (∃ cs, attach d links acc = Returned cs)
  ∨ (∃ k, attach d links acc = Raised (KeyError k)).
Proof.
  revert acc. induction links as [|link links IH]; intros acc; simpl.
  - left. by eexists.
  - destruct (d !! childIndex link); [apply IH|right; by eexists].
Qed.

(** *** One iteration *)

Lemma body_Next node d d' :
  body node d = Returned (Next d') →
  ∃ cs i, attach d (childLinks node) [] = Returned cs
          ∧ index node = Some i ∧ i ≠ 0
          ∧ d' = <[i := MkNode node cs]> d.
Proof.
  unfold body. destruct (attach d (childLinks node) []) as [cs|e]; [|done].
  simpl. destruct (index node) as [i|]; [|done].
  destruct (Z.eqb_spec i 0); simpl; [done|].
  intros [= <-]. by exists cs, i.
Qed.

Lemma body_Return node d n :
  body node d = Returned (Return n) →
  ∃ cs, attach d (childLinks node) [] = Returned cs
        ∧ truthy (index node) = false ∧ n = MkNode node cs.
Proof.
  unfold body. destruct (attach d (childLinks node) []) as [cs|e]; [|done].
  simpl. destruct (index node) as [i|]; simpl.
  - destruct (Z.eqb_spec i 0); simpl; [|done].
    intros [= <-]. by exists cs.
  - intros [= <-]. by exists cs.
Qed.


Lemma body_truthy node d cs :
  attach d (childLinks node) [] = Returned cs →
  truthy (index node) = true →
  ∃ i, index node = Some i ∧ i ≠ 0
       ∧ body node d = Returned (Next (<[i := MkNode node cs]> d)).
Proof.
  intros Hcs Ht. unfold body. rewrite Hcs. simpl.
  destruct (index node) as [i|]; [|done]. simpl in Ht. rewrite Ht.
  exists i. repeat split; try done. intros ->. done.
Qed.

Lemma body_falsy node d cs :
  attach d (childLinks node) [] = Returned cs →
  truthy (index node) = false →
  body node d = Returned (Return (MkNode node cs)).
Proof.
  intros Hcs Ht. unfold body. rewrite Hcs. simpl.
  destruct (index node) as [i|]; [|done]. simpl in Ht. by rewrite Ht.
Qed.

(** *** The outer loop *)

Lemma indices_cons r l :
  indices (r :: l)
  = match index r with Some i => i :: indices l | None => indices l end.
Proof. done. Qed.

Lemma elem_of_indices k l :
  k ∈ indices l ↔ ∃ r, r ∈ l ∧ index r = Some k.
Proof. apply list_elem_of_omap. Qed.

Lemma elem_of_indices_reverse k l : k ∈ indices (reverse l) ↔ k ∈ indices l.
Proof.
  rewrite !elem_of_indices. by setoid_rewrite elem_of_reverse.
Qed.

Lemma scan_run l rest d d' :
  run l d = Some d' → scan (l ++ rest) d = scan rest d'.
Proof.
  revert d. induction l as [|r l IH]; simpl; intros d.
  - by intros [= ->].
  - destruct (body r d) as [[d1|n]|e]; try done. simpl. apply IH.
Qed.

Lemma scan_no_run l rest d :
  run l d = None → scan (l ++ rest) d = scan l d.
Proof.
  revert d. induction l as [|r l IH]; simpl; intros d; [done|].
  destruct (body r d) as [[d1|n]|e]; simpl; try done. apply IH.
Qed.

Lemma run_app l1 l2 d : run (l1 ++ l2) d = run l1 d ≫= run l2.
Proof.
  revert d. induction l1 as [|r l1 IH]; simpl; intros d; [done|].
  destruct (body r d) as [[d1|n]|e]; simpl; try done.
Qed.

Lemma run_snoc_inv l r d d' :
  run (l ++ [r]) d = Some d' →
  ∃ d0 cs i, run l d = Some d0
             ∧ attach d0 (childLinks r) [] = Returned cs
             ∧ index r = Some i ∧ i ≠ 0
             ∧ d' = <[i := MkNode r cs]> d0.
Proof.
  rewrite run_app. destruct (run l d) as [d0|]; simpl; [|done].
  destruct (body r d0) as [[d1|n]|e] eqn:Hb; try done.
  intros [= ->]. apply body_Next in Hb as (cs & i & ? & ? & ? & ?).
  by exists d0, cs, i.
Qed.

(** The loop returns at the first record whose index is false: what
    comes after it in the scan is never looked at. *)
Lemma scan_stop l r rest d :
  truthy (index r) = false → scan (l ++ r :: rest) d = scan (l ++ [r]) d.
Proof.
  intros Hr. destruct (run l d) as [d'|] eqn:Hrun.
  - rewrite !(scan_run _ _ _ _ Hrun). simpl.
    destruct (body r d') as [[d1|n]|e] eqn:Hb; simpl; try done.
    apply body_Next in Hb as (cs & i & _ & Hi & Hne & _).
    rewrite Hi in Hr. simpl in Hr. apply negb_false_iff in Hr. lia.
  - by rewrite !scan_no_run.
Qed.

Lemma run_keys l :
  ∀ d d', run l d = Some d' →
    ∀ k, is_Some (d' !! k) ↔ is_Some (d !! k) ∨ k ∈ indices l.
Proof.
  induction l as [|r l IH]; cbn [run]; intros d d'.
  - intros [= ->] k. unfold indices. simpl. rewrite elem_of_nil. tauto.
  - destruct (body r d) as [[d1|n]|e] eqn:Hb; try done. intros Hrun k.
    apply body_Next in Hb as (cs & i & _ & Hi & _ & ->).
    rewrite (IH _ _ Hrun), indices_cons, Hi, lookup_insert_is_Some',
      elem_of_cons.
    split; [intros [[->|?]|?]|intros [?|[->|?]]]; auto.
Qed.


(** When every record has a true index, the loop either raises a
    [KeyError] or goes through the whole list. *)
Lemma run_or_raise l :
  Forall (λ r, truthy (index r) = true) l →
  ∀ d, (∃ k, ∀ rest, scan (l ++ rest) d = Raised (KeyError k))
       ∨ (∃ d', run l d = Some d').
Proof.
  induction 1 as [|r l Hr _ IH]; intros d; simpl.
  - right. by eexists.
  - destruct (attach_cases d (childLinks r) []) as [[cs Hcs]|[k Hk]].
    + destruct (body_truthy _ _ _ Hcs Hr) as (i & _ & _ & ->). simpl.
      apply IH.
    + left. exists k. intros rest. unfold body. by rewrite Hk.
Qed.

Lemma refs_forward_app pre post :
  refs_forward (pre ++ post) → refs_forward post.
Proof. induction pre as [|r pre IH]; simpl; [done|]. intros [_ ?]. auto. Qed.

(** With true indices and forward references the loop goes through the
    whole list: every look-up finds its key. *)
Lemma run_total post :
  Forall (λ r, truthy (index r) = true) post → refs_forward post →
  is_Some (run (reverse post) ∅).
Proof.
  induction 1 as [|r post Hr _ IH]; simpl; [by eexists|].
  intros [Hlinks Hfwd]. destruct (IH Hfwd) as [d Hd].
  rewrite reverse_cons, run_app, Hd. simpl.
  destruct (attach_ok d (childLinks r) []) as [cs Hcs].
  { eapply Forall_impl; [apply Hlinks|]. intros link Hin. simpl in Hin.
    apply (run_keys _ _ _ Hd). right. by apply elem_of_indices_reverse. }
  destruct (body_truthy _ _ _ Hcs Hr) as (i & _ & _ & ->). by eexists.
Qed.

(** *** What the dictionary holds *)

Lemma dict_inv_empty recs : dict_inv recs ∅.
Proof. intros k n. by rewrite lookup_empty. Qed.

Lemma attach_node_ok recs node d cs :
  node ∈ recs → dict_inv recs d →
  attach d (childLinks node) [] = Returned cs →
  node_ok recs (MkNode node cs).
Proof.
  intros Hnode Hd (cs' & -> & Hcs)%attach_Returned. simpl in *.
  unfold node_ok. simpl. constructor.
  - split; [done|]. unfold children_in_link_order. simpl.
    eapply Forall2_impl; [apply Hcs|]. intros link c Hc.
    by apply Hd in Hc as (_ & ? & _).
  - apply Forall_concat, Forall_fmap.
    induction Hcs as [|link c links cs Hc _ IH]; constructor; [|done].
    by apply Hd in Hc as (_ & _ & ?).
Qed.

Lemma body_inv recs node d :
  node ∈ recs → dict_inv recs d →
  match body node d with
  | Returned (Next d') => dict_inv recs d'
  | Returned (Return n) => node_ok recs n ∧ properties n = node
  | Raised _ => True
  end.
Proof.
  intros Hnode Hd. destruct (body node d) as [[d'|n]|e] eqn:Hb; [| |done].
  - apply body_Next in Hb as (cs & i & Hcs & Hi & Hne & ->).
    intros k n. rewrite lookup_insert. case_decide as Hk; [|apply Hd].
    intros [= <-]. subst k. repeat split; [done..|].
    by eapply attach_node_ok.
  - apply body_Return in Hb as (cs & Hcs & _ & ->).
    split; [by eapply attach_node_ok|done].
Qed.

Lemma scan_inv recs l :
  ∀ d n, Forall (λ r, r ∈ recs) l → dict_inv recs d →
         scan l d = Returned (Some n) → node_ok recs n.
Proof.
  induction l as [|r l IH]; simpl; intros d n Hl Hd; [done|].
  apply Forall_cons in Hl as [Hr Hl].
  pose proof (body_inv recs r d Hr Hd) as Hb.
  destruct (body r d) as [[d'|n']|e]; simpl; [| |done].
  - by apply IH.
  - intros [= <-]. apply Hb.
Qed.

(** *** Reaching the record the loop returns at *)

Lemma reverse_middle pre r post :
  reverse (pre ++ r :: post) = reverse post ++ r :: reverse pre.
Proof. by rewrite reverse_app, reverse_cons, <-app_assoc. Qed.

Lemma convert_truncates pre r post :
  truthy (index r) = false →
  _ConvertToTree (pre ++ r :: post) = _ConvertToTree (r :: post).
Proof.
  intros Hr. unfold _ConvertToTree.
  by rewrite reverse_middle, reverse_cons, scan_stop.
Qed.

Lemma convert_reaches r post :
  Forall (λ x, truthy (index x) = true) post →
  refs_forward (r :: post) →
  truthy (index r) = false →
  ∃ d cs, run (reverse post) ∅ = Some d
          ∧ attach d (childLinks r) [] = Returned cs
          ∧ ∀ pre,
              _ConvertToTree (pre ++ r :: post) = Returned (Some (MkNode r cs)).
Proof.
  intros Hpost [Hlinks Hfwd] Hr.
  destruct (run_total post Hpost Hfwd) as [d Hd].
  destruct (attach_ok d (childLinks r) []) as [cs Hcs].
  { eapply Forall_impl; [apply Hlinks|]. intros link Hin. simpl in Hin.
    apply (run_keys _ _ _ Hd). right. by apply elem_of_indices_reverse. }
  exists d, cs. split_and!; [done..|]. intros pre.
  unfold _ConvertToTree. rewrite reverse_middle, (scan_run _ _ _ _ Hd).
  simpl. by rewrite (body_falsy _ _ _ Hcs Hr).
Qed.

(** A record the scan reaches raises when one of its links names no
    record placed after it. *)
Lemma convert_raises pre r post link :
  Forall (λ x, truthy (index x) = true) post →
  link ∈ childLinks r → childIndex link ∉ indices post →
  ∃ k, _ConvertToTree (pre ++ r :: post) = Raised (KeyError k).
Proof.
  intros Hpost Hlink Hnotin. unfold _ConvertToTree. rewrite reverse_middle.
  destruct (run_or_raise (reverse post)) with (d := (∅ : gmap Z Node))
    as [[k Hk]|[d Hd]].
  { by apply Forall_reverse. }
  { exists k. apply Hk. }
  rewrite (scan_run _ _ _ _ Hd).
  destruct (attach_fail d (childLinks r) [] link Hlink) as (k & Hk & _).
  { apply eq_None_not_Some. intros [He|Hin]%(run_keys _ _ _ Hd).
    - rewrite lookup_empty in He. by destruct He.
    - by apply Hnotin, elem_of_indices_reverse. }
  exists k. simpl. unfold body. by rewrite Hk.
Qed.

Lemma truthy_true r :
  truthy (index r) = true ↔ is_Some (index r) ∧ index r ≠ Some 0.
Proof.
  destruct (index r) as [i|]; simpl.
  - rewrite negb_true_iff, Z.eqb_neq. split.
    + intros Hi. split; [by eexists|]. by intros [= ->].
    + intros [_ Hi] ->. done.
  - split; [done|]. by intros [[] _].
Qed.

Lemma zero_not_index post :
  Forall (λ x, truthy (index x) = true) post → 0 ∉ indices post.
Proof.
  intros Hpost (r & Hr & Hi)%elem_of_indices.
  rewrite Forall_forall in Hpost. apply Hpost in Hr.
  by rewrite Hi in Hr.
Qed.

Lemma last_falsy l :
  Exists (λ r, truthy (index r) = false) l →
  ∃ pre r post, l = pre ++ r :: post
                ∧ truthy (index r) = false
                ∧ Forall (λ x, truthy (index x) = true) post.
Proof.
  induction l as [|x l IH]; [by intros ?%Exists_nil|].
  intros Hex.
  destruct (decide (Exists (λ r, truthy (index r) = false) l)) as [Hl|Hl].
  - destruct (IH Hl) as (pre & r & post & -> & ? & ?).
    by exists (x :: pre), r, post.
  - apply not_Exists_Forall in Hl; [|apply _].
    apply Exists_cons in Hex as [Hx|Hex].
    + exists [], x, l. split_and!; [done..|].
      eapply Forall_impl; [apply Hl|]. intros y Hy. simpl in Hy.
      by destruct (truthy (index y)).
    + apply Forall_Exists_neg in Hl. done.
Qed.

(** *** References of a well-formed plan *)

Lemma indices_tail l k : k ∈ indices (tail l) → k ∈ indices l.
Proof.
  destruct l as [|r l]; [done|]. cbn [tail]. rewrite indices_cons.
  destruct (index r); [by right|done].
Qed.

Lemma refs_forward_tail l :
  refs_forward l → ∀ k, k ∈ child_indices l → k ∈ indices (tail l).
Proof.
  induction l as [|r post IH]; [by intros _ k ?%elem_of_nil|].
  intros [Hlinks Hfwd] k. unfold child_indices. simpl.
  rewrite elem_of_app. intros [Hk|Hk].
  - apply list_elem_of_fmap in Hk as (link & -> & Hlink).
    rewrite Forall_forall in Hlinks. by apply Hlinks.
  - by apply indices_tail, IH.
Qed.


Lemma child_indices_cons r l :
  child_indices (r :: l) = (childIndex <$> childLinks r) ++ child_indices l.
Proof. done. Qed.

(** In a well-formed plan the record without index comes first, and all
    the others have an index. *)
Lemma well_formed_root_first plan_nodes :
  well_formed plan_nodes →
  ∃ root post, plan_nodes = root :: post ∧ index root = None
               ∧ Forall (λ r, is_Some (index r)) post.
Proof.
  intros (Hone & Hnd & Hfwd & _ & Hcov).
  destruct plan_nodes as [|r0 post]; [done|]. exists r0, post.
  destruct (index r0) as [k|] eqn:Hk.
  { exfalso. rewrite indices_cons, Hk in Hnd, Hcov.
    apply NoDup_cons in Hnd as [Hnotin _]. apply Hnotin.
    apply Forall_cons in Hcov as [Hcov _].
    by apply (refs_forward_tail _ Hfwd) in Hcov. }
  split_and!; [done..|].
  rewrite filter_cons_True in Hone by done. simpl in Hone.
  apply Forall_forall. intros r Hr.
  destruct (index r) eqn:Hi; [by eexists|]. exfalso.
  assert (r ∈ filter (λ r, index r = None) post) as Hin
    by by apply list_elem_of_filter.
  destruct (filter _ post); [by apply elem_of_nil in Hin|done].
Qed.

(** *** The tree stored under each key *)

Lemma attach_tree recs post d r cs :
  Forall (λ x, x ∈ recs) post →
  run (reverse post) ∅ = Some d →
  (∀ r' k, r' ∈ post → index r' = Some k →
     ∃ n, d !! k = Some n ∧ tree_of recs r' n) →
  attach d (childLinks r) [] = Returned cs →
  tree_of recs r (MkNode r cs).
Proof.
  intros Hrecs Hd Htrees (cs' & -> & Hcs)%attach_Returned. simpl.
  constructor. eapply Forall2_impl; [apply Hcs|]. intros link c Hc.
  simpl in Hc.
  assert (childIndex link ∈ indices post) as (r' & Hr' & Hidx)%elem_of_indices.
  { apply elem_of_indices_reverse.
    assert (is_Some (d !! childIndex link)) as Hs by by eexists.
    apply (run_keys _ _ _ Hd) in Hs as [He|?]; [|done].
    rewrite lookup_empty in He. by destruct He. }
  destruct (Htrees r' _ Hr' Hidx) as (n & Hn & Htree).
  exists r'. rewrite Forall_forall in Hrecs.
  split_and!; [by apply Hrecs|done|]. congruence.
Qed.

Lemma run_tree recs post :
  Forall (λ x, x ∈ recs) post → NoDup (indices post) →
  ∀ d, run (reverse post) ∅ = Some d →
    ∀ r k, r ∈ post → index r = Some k →
      ∃ n, d !! k = Some n ∧ tree_of recs r n.
Proof.
  induction post as [|r0 post IH]; intros Hrecs Hnd d Hrun r k Hr Hk.
  { by apply elem_of_nil in Hr. }
  rewrite reverse_cons in Hrun.
  apply run_snoc_inv in Hrun as (d0 & cs & i & Hd0 & Hcs & Hi & Hne & ->).
  rewrite indices_cons, Hi in Hnd. apply NoDup_cons in Hnd as [Hnotin Hnd].
  apply Forall_cons in Hrecs as [Hr0 Hrecs].
  specialize (IH Hrecs Hnd d0 Hd0).
  apply elem_of_cons in Hr as [->|Hr].
  - assert (k = i) as -> by congruence.
    exists (MkNode r0 cs). rewrite lookup_insert_eq. split; [done|].
    by eapply attach_tree.
  - destruct (IH r k Hr Hk) as (n & Hn & Ht). exists n. split; [|done].
    rewrite lookup_insert_ne; [done|]. intros ->. apply Hnotin.
    apply elem_of_indices. eauto.
Qed.

Lemma index_unique recs r1 r2 k :
  NoDup (indices recs) → r1 ∈ recs → r2 ∈ recs →
  index r1 = Some k → index r2 = Some k → r1 = r2.
Proof.
  intros Hnd H1 H2 Hk1 Hk2.
  induction recs as [|x recs IH]; [by apply elem_of_nil in H1|].
  rewrite indices_cons in Hnd.
  assert (∀ r, r ∈ recs → index r = Some k → index x = Some k → False)
    as Hclash.
  { intros r Hr Hrk Hxk. rewrite Hxk in Hnd.
    apply NoDup_cons in Hnd as [Hnotin _]. apply Hnotin, elem_of_indices.
    eauto. }
  apply elem_of_cons in H1 as [->|H1], H2 as [->|H2]; [done| | |].
  - by destruct (Hclash r2).
  - by destruct (Hclash r1).
  - apply IH; [|done..].
    destruct (index x); [by apply NoDup_cons in Hnd as [_ ?]|done].
Qed.

(** With unique indices a record has one tree unfolding only. *)
Lemma tree_of_unique recs :
  NoDup (indices recs) →
  ∀ n r n', tree_of recs r n → tree_of recs r n' → n = n'.
Proof.
  intros Hnd. induction n as [p cs IH] using Node_ind.
  intros r n' Hn Hn'.
  inversion Hn as [r0 cs0 Hcs]; subst.
  inversion Hn' as [r0 cs' Hcs']; subst. f_equal. clear Hn Hn'.
  revert cs' Hcs' IH.
  induction Hcs as [|link c links cs (r1 & Hr1 & Hi1 & Ht1) _ IHcs];
    intros cs' Hcs' IH.
  { by apply Forall2_nil_inv_l in Hcs'. }
  apply Forall2_cons_inv_l in Hcs'
    as (c' & cs'' & (r2 & Hr2 & Hi2 & Ht2) & Hcs' & ->).
  apply Forall_cons in IH as [IHc IH].
  f_equal; [|by apply IHcs].
  apply (IHc r1); [done|].
  by rewrite (index_unique _ _ _ _ Hnd Hr1 Hr2 Hi1 Hi2).
Qed.

(** *** The forest built so far holds every scanned record once *)

Lemma records_node p cs : records (MkNode p cs) = p :: cs ≫= records.
Proof.
  unfold records. simpl. f_equal.
  induction cs as [|c cs IH]; simpl; [done|].
  etrans; [apply fmap_app|]. f_equal. exact IH.
Qed.

Lemma forest_attach d links :
  ∀ acc cs, attach d links acc = Returned cs →
    cs ≫= records = (acc ≫= records) ++ forest d (childIndex <$> links).
Proof.
  induction links as [|link links IH]; intros acc cs; cbn [attach].
  - intros [= <-]. unfold forest. simpl. by rewrite app_nil_r.
  - destruct (d !! childIndex link) as [c|] eqn:Hc; [|done].
    intros ->%IH. unfold forest. rewrite bind_app, fmap_cons, !bind_cons, Hc.
    simpl. by rewrite app_nil_r, <-app_assoc.
Qed.

Lemma forest_insert d i n ks :
  i ∉ ks → forest (<[i := n]> d) ks = forest d ks.
Proof.
  intros Hi. unfold forest. apply Forall_bind_ext, Forall_forall.
  intros k Hk. rewrite lookup_insert_ne; [done|]. by intros ->.
Qed.

Lemma unreferenced_cons r post i :
  index r = Some i → i ∉ indices post → refs_forward (r :: post) →
  unreferenced (r :: post)
  = i :: filter (λ k, k ∉ childIndex <$> childLinks r) (unreferenced post).
Proof.
  intros Hi Hnotin Hfwd. unfold unreferenced.
  rewrite indices_cons, Hi, filter_cons_True.
  - f_equal. rewrite list_filter_filter. apply list_filter_iff.
    intros k. rewrite child_indices_cons, elem_of_app. tauto.
  - intros Hin. apply Hnotin. by apply (refs_forward_tail _ Hfwd).
Qed.

(** The keys attached to a new node are roots of the forest, and the
    other roots stay. *)
Lemma roots_split ks post :
  NoDup (indices post) → NoDup (ks ++ child_indices post) →
  (∀ k, k ∈ ks → k ∈ indices post) →
  ks ++ filter (λ k, k ∉ ks) (unreferenced post) ≡ₚ unreferenced post.
Proof.
  intros Hnd [Hks [Hdisj _]]%NoDup_app Hin.
  assert (NoDup (unreferenced post)) as Hu by by apply NoDup_filter.
  apply NoDup_Permutation; [|done|].
  - apply NoDup_app. split_and!; [done| |by apply NoDup_filter].
    intros k Hk [Hk' _]%list_elem_of_filter. done.
  - intros k. rewrite elem_of_app, list_elem_of_filter. split.
    + intros [Hk|[_ Hk]]; [|done]. apply list_elem_of_filter. auto.
    + intros Hk. destruct (decide (k ∈ ks)); auto.
Qed.

Lemma run_forest post :
  NoDup (indices post) → refs_forward post → NoDup (child_indices post) →
  ∀ d, run (reverse post) ∅ = Some d → forest d (unreferenced post) ≡ₚ post.
Proof.
  induction post as [|r post IH]; intros Hnd Hfwd Hcnd d Hrun; [done|].
  rewrite reverse_cons in Hrun.
  apply run_snoc_inv in Hrun as (d0 & cs & i & Hd0 & Hcs & Hi & Hne & ->).
  pose proof Hnd as Hnd'. rewrite indices_cons, Hi in Hnd'.
  apply NoDup_cons in Hnd' as [Hnotin Hnd'].
  pose proof Hfwd as [Hlinks Hfwd'].
  rewrite child_indices_cons in Hcnd.
  pose proof Hcnd as [_ [_ Hcnd']]%NoDup_app.
  rewrite (unreferenced_cons _ _ _ Hi Hnotin Hfwd).
  unfold forest at 1. rewrite bind_cons, lookup_insert_eq. cbn [from_option].
  rewrite records_node, (forest_attach _ _ _ _ Hcs). cbn [mbind list_bind app].
  constructor.
  change (forest d0 (childIndex <$> childLinks r)
          ++ forest (<[i:=MkNode r cs]> d0)
               (filter (λ k, k ∉ childIndex <$> childLinks r)
                  (unreferenced post)) ≡ₚ post).
  rewrite forest_insert.
  - etrans; [|apply (IH Hnd' Hfwd' Hcnd' d0 Hd0)].
    unfold forest. rewrite <-bind_app.
    apply bind_Permutation, roots_split; [done..|].
    intros k (link & -> & Hlink)%list_elem_of_fmap.
    rewrite Forall_forall in Hlinks. by apply Hlinks.
  - intros [_ Hin]%list_elem_of_filter. apply Hnotin.
    by apply list_elem_of_filter in Hin as [_ ?].
Qed.

End Builder.

(** ** The examples of the specification *)

(** C8. Building and rendering the single-record plan writes exactly one
    line, " Root X": the prefix and the stub of the root are empty, and
    the leading space is the one of the line format
    [prepend + stub + " " + kind + " " + displayName]. *)
Theorem C8_single_node_line :
  (∀ out, DisplayQueryPlan single_node_plan out = (Returned (), out ++ [" Root X"]))
  ∧ (∀ n out prepend stub,
       _DisplayKindAndName n out prepend stub
       = out ++ [prepend +:+ stub +:+ " " +:+ kind (properties n) +:+ " "
                   +:+ displayName (properties n)])
  ∧ stub_of true true = "".
Proof. split_and!; intros; reflexivity. Qed.

(** C1 (as stated). On the plan of the specification, whose first child
    carries index [0], the scan returns at that child: the builder yields
    the node of child 0 alone, not the root with two children, and
    rendering writes the single line " A Foo" instead of the three lines. *)
Lemma C1_two_child_index_zero :
  _ConvertToTree two_child_plan = Returned (Some (MkNode two_child_0 []))
  ∧ _ConvertToTree two_child_plan
    ≠ Returned (Some (MkNode two_child_root
                        [MkNode two_child_0 []; MkNode two_child_1 []]))
  ∧ DisplayQueryPlan two_child_plan [] = (Returned (), [" A Foo"])
  ∧ DisplayQueryPlan two_child_plan []
    ≠ (Returned (), [" R X"; "    +- A Foo"; "    \- B Bar"]).
Proof. split_and!; [reflexivity|discriminate|reflexivity|discriminate]. Qed.

(** C1 (amended). With the two children indexed by any two distinct
    non-zero integers (for instance 1 and 2, their places in the list),
    the builder yields the root with the two children in link order, and
    rendering writes exactly the three lines. *)
Theorem C1_two_child_rendering (i j : Z) :
  i ≠ 0 → j ≠ 0 → i ≠ j →
  _ConvertToTree (two_child_plan_at i j)
  = Returned (Some (MkNode (MkPlanNode None "R" "X" [MkChildLink i; MkChildLink j])
                      [MkNode (MkPlanNode (Some i) "A" "Foo" []) [];
                       MkNode (MkPlanNode (Some j) "B" "Bar" []) []]))
  ∧ DisplayQueryPlan (two_child_plan_at i j) []
    = (Returned (), [" R X"; "    +- A Foo"; "    \- B Bar"]).
Proof.
  intros Hi Hj Hij.
  assert (_ConvertToTree (two_child_plan_at i j)
          = Returned (Some (MkNode (MkPlanNode None "R" "X"
                                      [MkChildLink i; MkChildLink j])
                              [MkNode (MkPlanNode (Some i) "A" "Foo" []) [];
                               MkNode (MkPlanNode (Some j) "B" "Bar" []) []])))
    as Htree.
  { apply Z.eqb_neq in Hi as Hi', Hj as Hj'.
    set (c0 := MkPlanNode (Some i) "A" "Foo" []).
    set (c1 := MkPlanNode (Some j) "B" "Bar" []).
    set (d1 := <[j := MkNode c1 []]> (∅ : gmap Z Node)).
    set (d0 := <[i := MkNode c0 []]> d1).
    assert (body c1 ∅ = Returned (Next d1)) as H1.
    { unfold body. cbn [attach childLinks index c1 mbind outcome_bind].
      by rewrite Hj'. }
    assert (body c0 d1 = Returned (Next d0)) as H0.
    { unfold body. cbn [attach childLinks index c0 mbind outcome_bind].
      by rewrite Hi'. }
    assert (d0 !! i = Some (MkNode c0 [])) as Hd0i
      by apply lookup_insert_eq.
    assert (d0 !! j = Some (MkNode c1 [])) as Hd0j.
    { unfold d0. rewrite lookup_insert_ne by done. apply lookup_insert_eq. }
    unfold _ConvertToTree, two_child_plan_at.
    change (reverse [?a; ?b; ?c]) with [c; b; a].
    cbn [scan]. fold c0 c1. rewrite H1. cbn [mbind outcome_bind].
    rewrite H0. cbn [mbind outcome_bind]. unfold body.
    cbn [attach childLinks index childIndex mbind outcome_bind].
    by rewrite Hd0i, Hd0j. }
  split; [done|]. unfold DisplayQueryPlan. rewrite Htree. reflexivity.
Qed.

Lemma C1_two_child_rendering_witness :
  _ConvertToTree (two_child_plan_at 1 2)
  = Returned (Some (MkNode (MkPlanNode None "R" "X" [MkChildLink 1; MkChildLink 2])
                      [MkNode (MkPlanNode (Some 1) "A" "Foo" []) [];
                       MkNode (MkPlanNode (Some 2) "B" "Bar" []) []]))
  ∧ DisplayQueryPlan (two_child_plan_at 1 2) []
    = (Returned (), [" R X"; "    +- A Foo"; "    \- B Bar"]).
Proof. apply (C1_two_child_rendering 1 2); lia. Defined.

(** ** The builder on well-formed plans *)

Lemma well_formed_truthy root post :
  Forall (λ r, is_Some (index r)) post → no_zero_index (root :: post) →
  Forall (λ r, truthy (index r) = true) post.
Proof.
  intros Hsome [_ Hnz]%Forall_cons. apply Forall_forall. intros r Hr.
  rewrite Forall_forall in Hsome, Hnz. apply truthy_true. auto.
Qed.

Lemma two_child_plan_well_formed : well_formed two_child_plan.
Proof. compute_done. Qed.

(** C2 (as stated). The plan of the two-child example satisfies the
    invariant of section 3, yet the builder does not return the node of
    the record without index: the scan returns earlier, at the record
    with index [0]. *)
Lemma C2_stops_before_root :
  well_formed two_child_plan
  ∧ index two_child_root = None
  ∧ ¬ ∃ n, _ConvertToTree two_child_plan = Returned (Some n)
           ∧ properties n = two_child_root.
Proof.
  split_and!; [apply two_child_plan_well_formed|done|].
  intros (n & Hn & Hroot). vm_compute in Hn. by injection Hn as <-.
Qed.

(** C2 (amended). For every plan that satisfies the invariant of
    section 3 and has no record with index [0], the record without index
    is the first of the list; the builder, scanning the list in reverse,
    returns at that record the node that is the root of the one tree
    equivalent to the plan, and it does so whatever records precede it in
    the list: they remain unprocessed. *)
Theorem C2_returns_root_tree plan_nodes :
  well_formed plan_nodes → no_zero_index plan_nodes →
  ∃ root post n,
    plan_nodes = root :: post ∧ index root = None
    ∧ tree_of plan_nodes root n
    ∧ (∀ n', tree_of plan_nodes root n' → n' = n)
    ∧ ∀ unprocessed,
        _ConvertToTree (unprocessed ++ plan_nodes) = Returned (Some n).
Proof.
  intros Hwf Hnz.
  destruct (well_formed_root_first _ Hwf) as (root & post & -> & Hroot & Hsome).
  pose proof (well_formed_truthy _ _ Hsome Hnz) as Hpost.
  destruct Hwf as (_ & Hnd & Hfwd & _).
  destruct (convert_reaches root post Hpost Hfwd) as (d & cs & Hd & Hcs & Hres).
  { by rewrite Hroot. }
  assert (tree_of (root :: post) root (MkNode root cs)) as Htree.
  { rewrite indices_cons, Hroot in Hnd.
    assert (Forall (λ x, x ∈ root :: post) post) as Hrecs.
    { apply Forall_forall. intros x Hx. by right. }
    eapply attach_tree; [done..| |done].
    by apply run_tree. }
  exists root, post, (MkNode root cs). split_and!; [done..| |done].
  intros n' Hn'. by eapply tree_of_unique.
Qed.

Lemma C2_returns_root_tree_witness :
  ∃ root post n,
    two_child_plan_at 1 2 = root :: post ∧ index root = None
    ∧ tree_of (two_child_plan_at 1 2) root n
    ∧ (∀ n', tree_of (two_child_plan_at 1 2) root n' → n' = n)
    ∧ ∀ unprocessed,
        _ConvertToTree (unprocessed ++ two_child_plan_at 1 2)
        = Returned (Some n).
Proof.
  apply (C2_returns_root_tree (two_child_plan_at 1 2)); compute_done.
Defined.

(** C3 (as stated). The well-formed plan of the two-child example has
    three records, but the tree the builder returns has one node. *)
Lemma C3_index_zero_truncates :
  well_formed two_child_plan
  ∧ length two_child_plan = 3%nat
  ∧ ∃ n, _ConvertToTree two_child_plan = Returned (Some n)
         ∧ length (all_nodes n) = 1%nat.
Proof.
  split_and!; [apply two_child_plan_well_formed|done|].
  by exists (MkNode two_child_0 []).
Qed.

(** C3 (amended). For every plan of N records that satisfies the
    invariant of section 3 and has no record with index [0], the builder
    returns a tree whose nodes were built from the records of the plan,
    each record giving exactly one node: the records of the tree are a
    permutation of the plan, so the tree has exactly N nodes. *)
Theorem C3_cardinality plan_nodes :
  well_formed plan_nodes → no_zero_index plan_nodes →
  ∃ n, _ConvertToTree plan_nodes = Returned (Some n)
       ∧ records n ≡ₚ plan_nodes
       ∧ length (all_nodes n) = length plan_nodes.
Proof.
  intros Hwf Hnz.
  destruct (well_formed_root_first _ Hwf) as (root & post & -> & Hroot & Hsome).
  pose proof (well_formed_truthy _ _ Hsome Hnz) as Hpost.
  destruct Hwf as (_ & Hnd & Hfwd & Hcnd & Hcov).
  destruct (convert_reaches root post Hpost Hfwd) as (d & cs & Hd & Hcs & Hres).
  { by rewrite Hroot. }
  rewrite indices_cons, Hroot in Hnd, Hcov. rewrite child_indices_cons in Hcnd, Hcov.
  pose proof Hfwd as [Hlinks Hfwd'].
  pose proof Hcnd as [Hks [Hdisj Hcnd']]%NoDup_app.
  assert (records (MkNode root cs) ≡ₚ root :: post) as Hperm.
  { rewrite records_node, (forest_attach _ _ _ _ Hcs). cbn [mbind list_bind app].
    constructor. etrans; [|by apply (run_forest post)].
    unfold forest. apply bind_Permutation, NoDup_Permutation;
      [done|by apply NoDup_filter|].
    intros k. unfold unreferenced. rewrite list_elem_of_filter. split.
    - intros Hk. split; [by apply Hdisj|].
      apply list_elem_of_fmap in Hk as (link & -> & Hlink).
      rewrite Forall_forall in Hlinks. by apply Hlinks.
    - intros [Hk Hin]. rewrite Forall_forall in Hcov.
      apply Hcov, elem_of_app in Hin as [?|?]; done. }
  exists (MkNode root cs). split_and!; [apply (Hres [])|done|].
  apply Permutation_length in Hperm. unfold records in Hperm.
  by rewrite length_fmap in Hperm.
Qed.

Lemma C3_cardinality_witness :
  ∃ n, _ConvertToTree (two_child_plan_at 1 2) = Returned (Some n)
       ∧ records n ≡ₚ two_child_plan_at 1 2
       ∧ length (all_nodes n) = length (two_child_plan_at 1 2).
Proof.
  apply (C3_cardinality (two_child_plan_at 1 2)); compute_done.
Defined.

(** C4. For every plan that satisfies the invariant of section 3, the
    builder returns a tree.  Its root was built from the record [r] the
    reverse scan returns at, the last record of the list whose index is
    absent or [0] (the record without index, first of the list, when no
    record has index [0]).  The tree is the one tree unfolding of [r]:
    the children of every node are, link by link and in the order of the
    [childLinks] of the record the node was built from, the unfoldings of
    the records the links name.  So every node of the tree was built from
    a record of the plan and has its children in exactly the order of the
    [childLinks] of that record. *)
Theorem C4_order_preservation plan_nodes :
  well_formed plan_nodes →
  ∃ pre r post n,
    plan_nodes = pre ++ r :: post
    ∧ (index r = None ∨ index r = Some 0)
    ∧ Forall (λ x, ∃ i, index x = Some i ∧ i ≠ 0) post
    ∧ (no_zero_index plan_nodes → pre = [] ∧ index r = None)
    ∧ _ConvertToTree plan_nodes = Returned (Some n)
    ∧ properties n = r
    ∧ tree_of plan_nodes r n
    ∧ (∀ n', tree_of plan_nodes r n' → n' = n)
    ∧ Forall (λ m, properties m ∈ plan_nodes ∧ children_in_link_order m)
             (all_nodes n).
Proof.
  intros Hwf.
  destruct (well_formed_root_first _ Hwf)
    as (root & post' & Heq & Hroot & Hsome).
  destruct (last_falsy plan_nodes) as (pre & r & post & -> & Hr & Hpost).
  { rewrite Heq. apply Exists_cons_hd. by rewrite Hroot. }
  destruct Hwf as (_ & Hnd & Hfwd & _).
  pose proof (refs_forward_app _ _ Hfwd) as Hfwd'.
  destruct (convert_reaches r post Hpost Hfwd' Hr) as (d & cs & Hd & Hcs & Hres).
  assert (tree_of (pre ++ r :: post) r (MkNode r cs)) as Htree.
  { assert (Forall (λ x, x ∈ pre ++ r :: post) post) as Hrecs.
    { apply Forall_forall. intros x Hx. apply elem_of_app. right. by right. }
    eapply attach_tree; [done..| |done]. apply run_tree; [done| |done].
    unfold indices in Hnd. rewrite omap_app in Hnd.
    apply NoDup_app in Hnd as (_ & _ & Hnd). fold (indices (r :: post)) in Hnd.
    rewrite indices_cons in Hnd.
    destruct (index r); [by apply NoDup_cons in Hnd as [_ ?]|done]. }
  exists pre, r, post, (MkNode r cs). split_and!.
  - done.
  - destruct (index r) as [i|]; [|by left]. right.
    simpl in Hr. apply negb_false_iff, Z.eqb_eq in Hr. by subst.
  - eapply Forall_impl; [apply Hpost|]. intros x Hx. simpl in Hx.
    destruct (index x) as [i|]; [|done]. exists i. split; [done|].
    simpl in Hx. by apply negb_true_iff, Z.eqb_neq in Hx.
  - intros Hnz. destruct pre as [|x pre].
    + split; [done|]. simpl in Heq. by injection Heq as -> _.
    + exfalso. simpl in Heq. injection Heq as -> <-.
      rewrite Forall_forall in Hsome. unfold no_zero_index in Hnz.
      rewrite Forall_forall in Hnz.
      assert (r ∈ pre ++ r :: post) as Hin
        by (apply elem_of_app; right; by left).
      assert (truthy (index r) = true) as Ht.
      { apply truthy_true. split; [by apply Hsome|].
        apply Hnz. by right. }
      congruence.
  - apply Hres.
  - done.
  - done.
  - intros n' Hn'. by eapply tree_of_unique.
  - apply (scan_inv _ (reverse (pre ++ r :: post)) ∅).
    + apply Forall_forall. intros x Hx. by apply elem_of_reverse.
    + apply dict_inv_empty.
    + apply Hres.
Qed.

(** The plan of the witness: the scan returns at the record with index
    [0], whose children come in the order of its links, 2 then 1. *)
Lemma C4_order_preservation_witness :
  (∃ pre r post n,
     zero_subtree_plan = pre ++ r :: post
     ∧ (index r = None ∨ index r = Some 0)
     ∧ Forall (λ x, ∃ i, index x = Some i ∧ i ≠ 0) post
     ∧ (no_zero_index zero_subtree_plan → pre = [] ∧ index r = None)
     ∧ _ConvertToTree zero_subtree_plan = Returned (Some n)
     ∧ properties n = r
     ∧ tree_of zero_subtree_plan r n
     ∧ (∀ n', tree_of zero_subtree_plan r n' → n' = n)
     ∧ Forall (λ m, properties m ∈ zero_subtree_plan ∧ children_in_link_order m)
              (all_nodes n))
  ∧ _ConvertToTree zero_subtree_plan
    = Returned (Some
        (MkNode (MkPlanNode (Some 0) "A" "Zero" [MkChildLink 2; MkChildLink 1])
           [MkNode (MkPlanNode (Some 2) "B" "Two" []) [];
            MkNode (MkPlanNode (Some 1) "B" "One" []) []])).
Proof.
  split; [|reflexivity].
  apply (C4_order_preservation zero_subtree_plan). compute_done.
Defined.

(** ** Failures of the builder *)

(** C5 (as stated). A record whose link names an index that no record of
    the list carries does not make the builder fail when the record is
    placed before the record the scan returns at: the builder returns
    the root, and the tree is written. *)
Lemma C5_unscanned_reference :
  (∃ r link, r ∈ dangling_before_root ∧ link ∈ childLinks r
             ∧ childIndex link ∉ indices dangling_before_root)
  ∧ _ConvertToTree dangling_before_root
    = Returned (Some (MkNode (MkPlanNode None "R" "X" []) []))
  ∧ DisplayQueryPlan dangling_before_root [] = (Returned (), [" R X"]).
Proof.
  split_and!; [|reflexivity..].
  exists (MkPlanNode (Some 5) "A" "Foo" [MkChildLink 99]), (MkChildLink 99).
  split_and!; [by left|by left|compute_done].
Qed.

(** C5 (amended). When every record placed after [r] has a non-zero
    index (so that the reverse scan reaches [r]) and a link of [r] names
    an index that no record placed after [r] carries (in particular an
    index that no record carries), the builder raises a [KeyError], which
    is a [LookupError]; no node is returned, and [DisplayQueryPlan] raises
    the same error without writing anything. *)
Theorem C5_malformed_reference pre r post link out :
  Forall (λ x, is_Some (index x) ∧ index x ≠ Some 0) post →
  link ∈ childLinks r →
  childIndex link ∉ indices post →
  ∃ k, _ConvertToTree (pre ++ r :: post) = Raised (KeyError k)
       ∧ is_LookupError (KeyError k) = true
       ∧ DisplayQueryPlan (pre ++ r :: post) out = (Raised (KeyError k), out).
Proof.
  intros Hpost Hlink Hnotin.
  destruct (convert_raises pre r post link) as [k Hk]; [|done..|].
  { eapply Forall_impl; [apply Hpost|]. intros x. apply truthy_true. }
  exists k. split_and!; [done..|]. unfold DisplayQueryPlan. by rewrite Hk.
Qed.

Lemma C5_malformed_reference_witness :
  ∃ k, _ConvertToTree ([] ++ MkPlanNode None "R" "X" [MkChildLink 7]
                          :: [MkPlanNode (Some 1) "A" "Foo" []])
       = Raised (KeyError k)
       ∧ is_LookupError (KeyError k) = true
       ∧ DisplayQueryPlan ([] ++ MkPlanNode None "R" "X" [MkChildLink 7]
                              :: [MkPlanNode (Some 1) "A" "Foo" []]) []
         = (Raised (KeyError k), []).
Proof.
  apply (C5_malformed_reference [] (MkPlanNode None "R" "X" [MkChildLink 7])
           [MkPlanNode (Some 1) "A" "Foo" []] (MkChildLink 7) []).
  - repeat constructor; [by eexists|done].
  - by left.
  - compute_done.
Defined.

(** C6 (as stated). In a plan whose only record carries the index [0],
    no record lacks an index, yet the builder returns a node. *)
Lemma C6_index_zero_returns_node :
  Forall (λ r, is_Some (index r)) only_index_zero
  ∧ _ConvertToTree only_index_zero
    = Returned (Some (MkNode (MkPlanNode (Some 0) "R" "X" []) []))
  ∧ _ConvertToTree only_index_zero ≠ Returned None.
Proof. split_and!; [by repeat constructor|reflexivity|discriminate]. Qed.

(** C6 (amended). When every record has an index and none has index [0],
    the builder never returns a node: it raises a [KeyError] or returns
    [None]; and when moreover every link names the index of a record
    placed after the linking one, it raises nothing and returns [None]. *)
Theorem C6_missing_root plan_nodes :
  Forall (λ r, is_Some (index r)) plan_nodes → no_zero_index plan_nodes →
  ((∃ k, _ConvertToTree plan_nodes = Raised (KeyError k))
   ∨ _ConvertToTree plan_nodes = Returned None)
  ∧ (refs_forward plan_nodes → _ConvertToTree plan_nodes = Returned None).
Proof.
  intros Hsome Hnz.
  assert (Forall (λ r, truthy (index r) = true) plan_nodes) as Hall.
  { apply Forall_forall. intros r Hr. rewrite Forall_forall in Hsome.
    unfold no_zero_index in Hnz. rewrite Forall_forall in Hnz.
    apply truthy_true. auto. }
  assert (∀ d, run (reverse plan_nodes) ∅ = Some d →
               _ConvertToTree plan_nodes = Returned None) as Hnone.
  { intros d Hd. unfold _ConvertToTree.
    rewrite <-(app_nil_r (reverse plan_nodes)). by rewrite (scan_run _ _ _ _ Hd). }
  split.
  - destruct (run_or_raise (reverse plan_nodes)) with (d := (∅ : gmap Z Node))
      as [[k Hk]|[d Hd]].
    + by apply Forall_reverse.
    + left. exists k. unfold _ConvertToTree. specialize (Hk []).
      by rewrite app_nil_r in Hk.
    + right. by eapply Hnone.
  - intros Hfwd. destruct (run_total plan_nodes Hall Hfwd) as [d Hd].
    by eapply Hnone.
Qed.

Lemma C6_missing_root_witness :
  ((∃ k, _ConvertToTree [MkPlanNode (Some 1) "A" "Foo" [MkChildLink 2];
                         MkPlanNode (Some 2) "B" "Bar" []]
         = Raised (KeyError k))
   ∨ _ConvertToTree [MkPlanNode (Some 1) "A" "Foo" [MkChildLink 2];
                     MkPlanNode (Some 2) "B" "Bar" []] = Returned None)
  ∧ _ConvertToTree [MkPlanNode (Some 1) "A" "Foo" [MkChildLink 2];
                    MkPlanNode (Some 2) "B" "Bar" []] = Returned None.
Proof.
  destruct (C6_missing_root [MkPlanNode (Some 1) "A" "Foo" [MkChildLink 2];
                             MkPlanNode (Some 2) "B" "Bar" []])
    as [Hcases Hnone].
  - repeat constructor; by eexists.
  - repeat constructor; done.
  - split; [exact Hcases|]. apply Hnone. compute_done.
Defined.

(** ** The index [0] *)

(** C10 (as stated). In the plan [root → child 0], the record placed
    earlier in the list than the record with index [0] has a link naming
    [childIndex 0], and yet nothing fails: the scan has returned at the
    record with index [0] and never looks at the earlier record. *)
Lemma C10_parent_of_zero_not_scanned :
  (∃ r link, parent_of_zero = [r; two_child_0]
             ∧ link ∈ childLinks r ∧ childIndex link = 0)
  ∧ _ConvertToTree parent_of_zero = Returned (Some (MkNode two_child_0 []))
  ∧ ∀ e, _ConvertToTree parent_of_zero ≠ Raised e.
Proof.
  split_and!; [|reflexivity|discriminate].
  exists (MkPlanNode None "R" "X" [MkChildLink 0]), (MkChildLink 0).
  split_and!; [done|by left|done].
Qed.

(** C10 (amended). A record whose index is [0] is treated exactly like a
    record without index.  (1) The scan returns at it: the records placed
    before it in the list are never looked at, so the plan is truncated
    at that record.  (2) When the scan reaches it (every record after it
    has a non-zero index) and its links name records placed after it, its
    node is returned as the root.  (3) When the scan reaches it, the
    builder does with it what it does with the same record without index:
    the same error, or the same children under the node.  (4) An iteration
    never stores anything under the key [0].  (5) Hence every record the
    scan reaches that has a link naming [childIndex 0] raises a
    [KeyError]. *)
Theorem C10_index_zero_is_root r :
  index r = Some 0 →
  (∀ pre post,
     _ConvertToTree (pre ++ r :: post) = _ConvertToTree (r :: post))
  ∧ (∀ pre post,
       Forall (λ x, is_Some (index x) ∧ index x ≠ Some 0) post →
       refs_forward (r :: post) →
       ∃ cs, _ConvertToTree (pre ++ r :: post) = Returned (Some (MkNode r cs)))
  ∧ (∀ pre post,
       Forall (λ x, is_Some (index x) ∧ index x ≠ Some 0) post →
       _ConvertToTree (pre ++ set_index None r :: post)
       = match _ConvertToTree (pre ++ r :: post) with
         | Returned (Some n) =>
             Returned (Some (MkNode (set_index None r) (children n)))
         | other => other
         end)
  ∧ (∀ node d d', body node d = Returned (Next d') → d' !! 0 = d !! 0)
  ∧ (∀ pre x post link,
       Forall (λ y, is_Some (index y) ∧ index y ≠ Some 0) post →
       link ∈ childLinks x → childIndex link = 0 →
       ∃ k, _ConvertToTree (pre ++ x :: post) = Raised (KeyError k)).
Proof.
  intros Hr.
  assert (∀ post, Forall (λ x, is_Some (index x) ∧ index x ≠ Some 0) post →
                  Forall (λ x, truthy (index x) = true) post) as Htruthy.
  { intros post Hpost. eapply Forall_impl; [apply Hpost|].
    intros x. apply truthy_true. }
  assert (truthy (index r) = false) as Hfalsy by by rewrite Hr.
  split_and!.
  - intros pre post. by apply convert_truncates.
  - intros pre post Hpost%Htruthy Hfwd.
    destruct (convert_reaches r post Hpost Hfwd Hfalsy) as (d & cs & _ & _ & Hres).
    by exists cs.
  - intros pre post Hpost%Htruthy. unfold _ConvertToTree.
    rewrite !reverse_middle.
    destruct (run_or_raise (reverse post)) with (d := (∅ : gmap Z Node))
      as [[k Hk]|[d Hd]].
    { by apply Forall_reverse. }
    { by rewrite !Hk. }
    rewrite !(scan_run _ _ _ _ Hd). simpl. unfold body.
    cbn [set_index childLinks index]. rewrite Hr.
    destruct (attach d (childLinks r) []) as [cs|e]; done.
  - intros node d d' (cs & i & _ & _ & Hi & ->)%body_Next.
    by rewrite lookup_insert_ne.
  - intros pre x post link Hpost%Htruthy Hlink Hzero.
    apply (convert_raises pre x post link); [done..|].
    rewrite Hzero. by apply zero_not_index.
Qed.

Lemma C10_index_zero_is_root_witness :
  _ConvertToTree ([MkPlanNode None "R" "X" [MkChildLink 0]]
                    ++ two_child_0 :: [two_child_1])
  = _ConvertToTree (two_child_0 :: [two_child_1])
  ∧ (∃ cs, _ConvertToTree ([MkPlanNode None "R" "X" [MkChildLink 0]]
                             ++ two_child_0 :: [two_child_1])
           = Returned (Some (MkNode two_child_0 cs)))
  ∧ (∃ k, _ConvertToTree ([] ++ MkPlanNode None "R" "X" [MkChildLink 0]
                             :: [two_child_1])
          = Raised (KeyError k)).
Proof.
  destruct (C10_index_zero_is_root two_child_0) as (H1 & H2 & _ & _ & H5);
    [reflexivity|].
  split_and!.
  - apply H1.
  - apply H2; [|compute_done]. repeat constructor; [by eexists|done].
  - apply (H5 _ _ _ (MkChildLink 0)); [|by left|done].
    repeat constructor; [by eexists|done].
Defined.

(** * Further properties *)

(** ** The renderer in any context *)

Section RendererAnyContext.

Lemma for_enumerate_append {A} (f : Z → A → Out → Out) cs :
  (∀ i c o, c ∈ cs → f i c o = o ++ f i c []) →
  ∀ idx out, for_enumerate f cs idx out = out ++ for_enumerate f cs idx [].
Proof.
  induction cs as [|c cs IH]; intros Hf idx out; simpl.
  { by rewrite app_nil_r. }
  assert (∀ i c0 o, c0 ∈ cs → f i c0 o = o ++ f i c0 []) as Hf'
    by (intros; apply Hf; by right).
  rewrite (IH Hf' _ (f idx c out)), (IH Hf' _ (f idx c [])).
  rewrite (Hf idx c out) by left. by rewrite <-app_assoc.
Qed.

Lemma PrettyPrint_append n :
  ∀ out prepend is_last is_root,
    PrettyPrint n out prepend is_last is_root
    = out ++ PrettyPrint n [] prepend is_last is_root.
Proof.
  induction n as [p cs IH] using Node_ind.
  intros out prepend is_last is_root. simpl PrettyPrint.
  rewrite Forall_forall in IH.
  rewrite for_enumerate_append; [|by intros i c o Hc; apply IH].
  symmetry. rewrite for_enumerate_append; [|by intros i c o Hc; apply IH].
  unfold _DisplayKindAndName, Print. simpl. by rewrite <-app_assoc.
Qed.

(** A loop invariant for the loop over the children: a relation between
    the lines written and a list laid out child by child. *)
Lemma for_enumerate_Forall2 {B} (R : string → B → Prop)
    (f : Z → Node → Out → Out) (g : Node → list B) cs :
  (∀ i c o acc, c ∈ cs → Forall2 R o acc → Forall2 R (f i c o) (acc ++ g c)) →
  ∀ idx out acc,
    Forall2 R out acc →
    Forall2 R (for_enumerate f cs idx out) (acc ++ concat (map g cs)).
Proof.
  induction cs as [|c cs IH]; intros Hf idx out acc Hout; simpl.
  { by rewrite app_nil_r. }
  rewrite app_assoc. apply IH.
  - intros. apply Hf; [by right|done].
  - apply Hf; [by left|done].
Qed.

Lemma PrettyPrint_shows n :
  ∀ out acc prepend is_last is_root,
    Forall2 shows out acc →
    Forall2 shows (PrettyPrint n out prepend is_last is_root)
            (acc ++ all_nodes n).
Proof.
  induction n as [p cs IH] using Node_ind.
  intros out acc prepend is_last is_root Hout. simpl PrettyPrint.
  rewrite Forall_forall in IH.
  change (all_nodes (MkNode p cs))
    with ([MkNode p cs] ++ concat (map all_nodes cs)).
  rewrite app_assoc. apply for_enumerate_Forall2.
  - intros i c o acc' Hc Ho. by apply IH.
  - unfold _DisplayKindAndName, Print. apply Forall2_app; [done|].
    constructor; [|done]. simpl.
    exists (or_empty prepend +:+ stub_of is_last is_root).
    by rewrite append_assoc.
Qed.

Lemma length_append (a b : string) :
  String.length (a +:+ b) = (String.length a + String.length b)%nat.
Proof.
  induction a as [|x a IH]; [done|].
  change (S (String.length (a +:+ b))
          = S (String.length a + String.length b)). by rewrite IH.
Qed.

Lemma PrettyPrint_child_width n :
  ∀ d out acc prefix is_last,
    String.length prefix = (4 * S d)%nat →
    Forall2 (λ line dm, String.length line = line_width dm.1 dm.2) out acc →
    Forall2 (λ line dm, String.length line = line_width dm.1 dm.2)
            (PrettyPrint n out (Some prefix) is_last false)
            (acc ++ nodes_with_depth n (S d)).
Proof.
  induction n as [p cs IH] using Node_ind.
  intros d out acc prefix is_last Hlen Hout. simpl PrettyPrint.
  rewrite Forall_forall in IH.
  change (nodes_with_depth (MkNode p cs) (S d))
    with ([(S d, MkNode p cs)]
          ++ concat (map (λ c, nodes_with_depth c (S (S d))) cs)).
  rewrite app_assoc. apply for_enumerate_Forall2.
  - intros i c o acc' Hc Ho. apply IH; [done| |done].
    rewrite !length_append, Hlen. destruct is_last; simpl; lia.
  - unfold _DisplayKindAndName, Print. apply Forall2_app; [done|].
    constructor; [|done]. unfold line_width. simpl.
    rewrite !length_append, Hlen. destruct is_last; simpl; lia.
Qed.

End RendererAnyContext.

(** X1. [PrettyPrint] only adds lines at the end of the output, and the
    lines it adds do not depend on what was written before: in every
    context, printing onto [out] gives [out] followed by what printing
    onto an empty output gives. *)
Theorem X1_PrettyPrint_appends n out prepend is_last is_root :
  PrettyPrint n out prepend is_last is_root
  = out ++ PrettyPrint n [] prepend is_last is_root.
Proof. apply PrettyPrint_append. Qed.

(** X2. In every context [PrettyPrint] writes one line per node of the
    tree, in depth-first pre-order: the i-th line written ends with the
    kind and the name of the i-th node of the pre-order traversal.  In
    particular the number of lines is the number of nodes. *)
Theorem X2_PrettyPrint_preorder n prepend is_last is_root :
  Forall2 shows (PrettyPrint n [] prepend is_last is_root) (all_nodes n)
  ∧ length (PrettyPrint n [] prepend is_last is_root) = length (all_nodes n).
Proof.
  assert (Forall2 shows (PrettyPrint n [] prepend is_last is_root)
                  (all_nodes n)) as H.
  { apply (PrettyPrint_shows n [] []). constructor. }
  split; [done|]. by eapply Forall2_length.
Qed.

(** X3. Rendered from the root context without prefix, the line of a node
    at depth [d] is [4 * d] columns of indentation, the two-character
    stub when [d > 0], and the two separating spaces wider than its kind
    and name: each level of the tree is indented by four columns. *)
Theorem X3_PrettyPrint_indentation n :
  Forall2 (λ line dm, String.length line = line_width dm.1 dm.2)
          (PrettyPrint n [] None true true) (nodes_with_depth n 0).
Proof.
  destruct n as [p cs]. simpl PrettyPrint.
  change (nodes_with_depth (MkNode p cs) 0)
    with ([(O, MkNode p cs)] ++ concat (map (λ c, nodes_with_depth c 1) cs)).
  apply for_enumerate_Forall2.
  - intros i c o acc _ Ho. by apply PrettyPrint_child_width.
  - unfold _DisplayKindAndName, Print. constructor; [|done].
    unfold line_width. simpl. rewrite !length_append. simpl. lia.
Qed.

(** ** The builder on any plan *)

Section BuilderAnyPlan.
Implicit Types (d : gmap Z Node) (l post pre : list PlanNode)
  (r node : PlanNode) (n : Node).

Lemma body_raises node d e :
  body node d = Raised e →
  ∃ k, e = KeyError k ∧ k ∈ childIndex <$> childLinks node ∧ d !! k = None.
Proof.
  unfold body. generalize (@nil Node).
  induction (childLinks node) as [|link links IH]; intros acc; cbn [attach].
  - simpl. destruct (index node) as [i|]; [destruct (negb (i =? 0))|]; done.
  - destruct (d !! childIndex link) eqn:Hc.
    + intros (k & ? & ? & ?)%IH. exists k. split_and!; [done| |done].
      rewrite fmap_cons. by right.
    + cbn [mbind outcome_bind]. intros [= <-]. exists (childIndex link).
      split_and!; [done| |done]. rewrite fmap_cons. by left.
Qed.

Lemma scan_raises l :
  ∀ d e, scan l d = Raised e → ∃ k, e = KeyError k ∧ k ∈ child_indices l.
Proof.
  induction l as [|r l IH]; intros d e; [done|]. cbn [scan].
  rewrite child_indices_cons. setoid_rewrite elem_of_app.
  destruct (body r d) as [[d'|n]|e'] eqn:Hb; simpl; [|done|].
  - intros (k & ? & ?)%IH. eauto.
  - intros [= <-]. apply body_raises in Hb as (k & ? & ? & _). eauto.
Qed.

Lemma elem_of_child_indices k l :
  k ∈ child_indices l ↔ ∃ r link, r ∈ l ∧ link ∈ childLinks r
                                 ∧ childIndex link = k.
Proof.
  unfold child_indices. rewrite list_elem_of_bind. split.
  - intros (r & (link & -> & ?)%list_elem_of_fmap & ?). eauto.
  - intros (r & link & ? & ? & <-). exists r. split; [|done].
    apply list_elem_of_fmap. eauto.
Qed.

Lemma convert_raises_key plan_nodes e :
  _ConvertToTree plan_nodes = Raised e →
  ∃ k, e = KeyError k ∧ k ∈ child_indices plan_nodes.
Proof.
  intros (k & -> & Hk)%scan_raises. exists k. split; [done|].
  apply elem_of_child_indices in Hk as (r & link & Hr & ? & ?).
  rewrite elem_of_reverse in Hr.
  apply elem_of_child_indices. by exists r, link.
Qed.

Lemma convert_no_sentinel plan_nodes :
  Forall (λ r, truthy (index r) = true) plan_nodes →
  refs_forward plan_nodes →
  _ConvertToTree plan_nodes = Returned None.
Proof.
  intros Hall Hfwd. destruct (run_total plan_nodes Hall Hfwd) as [d Hd].
  unfold _ConvertToTree. rewrite <-(app_nil_r (reverse plan_nodes)).
  by rewrite (scan_run _ _ _ _ Hd).
Qed.

Lemma scan_truthy l :
  ∀ d n, (∀ k m, d !! k = Some m → all_truthy m) →
         scan l d = Returned (Some n) →
         truthy (index (properties n)) = false
         ∧ Forall all_truthy (children n).
Proof.
  induction l as [|r l IH]; intros d n Hd; [done|]. cbn [scan].
  assert (∀ cs, attach d (childLinks r) [] = Returned cs →
                Forall all_truthy cs) as Hcs.
  { intros cs (cs' & -> & Hcs')%attach_Returned. simpl.
    induction Hcs' as [|link c links cs Hc _ IHcs]; constructor; [|done].
    by eapply Hd. }
  destruct (body r d) as [[d'|n']|e] eqn:Hb; simpl; [| |done].
  - apply IH. apply body_Next in Hb as (cs & i & Hatt & Hi & Hne & ->).
    intros k m. rewrite lookup_insert. case_decide; [|apply Hd].
    intros [= <-]. unfold all_truthy. simpl. constructor.
    + simpl. rewrite Hi. simpl. by apply negb_true_iff, Z.eqb_neq.
    + apply Forall_concat, Forall_fmap. by apply Hcs.
  - intros [= <-]. apply body_Return in Hb as (cs & Hatt & Hr & ->).
    split; [done|]. by apply Hcs.
Qed.

(** What the dictionary holds under a key when several records carry it:
    the node of the record scanned last, which is the first in the list. *)
Lemma run_first_with_index post :
  ∀ d, run (reverse post) ∅ = Some d →
    ∀ k n, d !! k = Some n → first_with_index k post = Some (properties n).
Proof.
  induction post as [|r post IH]; intros d Hrun k n.
  { injection Hrun as <-. by rewrite lookup_empty. }
  rewrite reverse_cons in Hrun.
  apply run_snoc_inv in Hrun as (d0 & cs & i & Hd0 & _ & Hi & _ & ->).
  cbn [first_with_index]. rewrite lookup_insert. case_decide as Hk.
  - intros [= <-]. subst k. by rewrite decide_True.
  - intros Hn. rewrite decide_False by congruence. by eapply IH.
Qed.

End BuilderAnyPlan.

(** X4. The only exception the builder raises is a [KeyError], and its
    key is a [childIndex] that some record of the plan refers to. *)
Theorem X4_builder_raises_only_KeyError plan_nodes e :
  _ConvertToTree plan_nodes = Raised e →
  ∃ k, e = KeyError k ∧ k ∈ child_indices plan_nodes.
Proof. apply convert_raises_key. Qed.

Lemma X4_builder_raises_only_KeyError_witness :
  ∃ k, KeyError 7 = KeyError k
       ∧ k ∈ child_indices [MkPlanNode None "R" "X" [MkChildLink 7];
                            MkPlanNode (Some 1) "A" "Foo" []].
Proof.
  apply (X4_builder_raises_only_KeyError
           [MkPlanNode None "R" "X" [MkChildLink 7];
            MkPlanNode (Some 1) "A" "Foo" []] (KeyError 7)).
  reflexivity.
Defined.

(** X6. A plan without root sentinel makes [DisplayQueryPlan] crash: when
    every record has a non-zero index and every link names a record placed
    after the linking one (in particular for the empty plan), the builder
    returns [None], and [DisplayQueryPlan] raises the [AttributeError] of
    [None.PrettyPrint] without writing anything. *)
Theorem X6_DisplayQueryPlan_without_root plan_nodes out :
  Forall (λ r, is_Some (index r)) plan_nodes →
  no_zero_index plan_nodes →
  refs_forward plan_nodes →
  DisplayQueryPlan plan_nodes out = (Raised (AttributeError "PrettyPrint"), out).
Proof.
  intros Hsome Hnz Hfwd. unfold DisplayQueryPlan.
  rewrite convert_no_sentinel; [done| |done].
  apply Forall_forall. intros r Hr. rewrite Forall_forall in Hsome.
  unfold no_zero_index in Hnz. rewrite Forall_forall in Hnz.
  apply truthy_true. auto.
Qed.

Lemma X6_DisplayQueryPlan_without_root_witness :
  DisplayQueryPlan [MkPlanNode (Some 1) "A" "Foo" [MkChildLink 2];
                    MkPlanNode (Some 2) "B" "Bar" []] ["kept"]
  = (Raised (AttributeError "PrettyPrint"), ["kept"]).
Proof.
  apply (X6_DisplayQueryPlan_without_root
           [MkPlanNode (Some 1) "A" "Foo" [MkChildLink 2];
            MkPlanNode (Some 2) "B" "Bar" []] ["kept"]).
  - repeat constructor; by eexists.
  - repeat constructor; done.
  - compute_done.
Defined.

(** X7. Displaying the same plan twice writes the same lines twice: when
    a call of [DisplayQueryPlan] returns, a second call on the output it
    left returns too and adds exactly the lines the first call added. *)
Theorem X7_DisplayQueryPlan_twice plan_nodes out out1 :
  DisplayQueryPlan plan_nodes out = (Returned (), out1) →
  ∃ lines, out1 = out ++ lines
           ∧ DisplayQueryPlan plan_nodes out1
             = (Returned (), out ++ lines ++ lines).
Proof.
  unfold DisplayQueryPlan.
  destruct (_ConvertToTree plan_nodes) as [[n|]|e]; [|done..].
  intros [= <-]. exists (PrettyPrint n [] None true true).
  split; [apply PrettyPrint_append|].
  by rewrite (PrettyPrint_append n (PrettyPrint _ _ _ _ _)),
    (PrettyPrint_append n out), <-app_assoc.
Qed.

Lemma X7_DisplayQueryPlan_twice_witness :
  ∃ lines, [" R X"; "    +- A Foo"; "    \- B Bar"] = [] ++ lines
           ∧ DisplayQueryPlan (two_child_plan_at 1 2)
               [" R X"; "    +- A Foo"; "    \- B Bar"]
             = (Returned (), [] ++ lines ++ lines).
Proof.
  apply (X7_DisplayQueryPlan_twice (two_child_plan_at 1 2) []).
  reflexivity.
Defined.

(** X8. Whatever the plan, a tree the builder returns has this shape: its
    root was built from a record whose index is absent or [0], every node
    below the root was built from a record with a non-zero index, and
    every node was built from a record of the plan and keeps the order of
    its [childLinks]. *)
Theorem X8_returned_tree_shape plan_nodes n :
  _ConvertToTree plan_nodes = Returned (Some n) →
  (index (properties n) = None ∨ index (properties n) = Some 0)
  ∧ Forall (λ m, ∃ i, index (properties m) = Some i ∧ i ≠ 0)
           (tail (all_nodes n))
  ∧ Forall (λ m, properties m ∈ plan_nodes ∧ children_in_link_order m)
           (all_nodes n).
Proof.
  intros Hres. unfold _ConvertToTree in Hres. split_and!.
  - apply scan_truthy in Hres as [Hroot _];
      [|by intros k m; rewrite lookup_empty].
    destruct (index (properties n)) as [i|]; [|by left]. right.
    simpl in Hroot. apply negb_false_iff, Z.eqb_eq in Hroot. by subst.
  - apply scan_truthy in Hres as [_ Hbelow];
      [|by intros k m; rewrite lookup_empty].
    destruct n as [p cs]. simpl in *.
    apply Forall_concat, Forall_fmap.
    eapply Forall_impl; [apply Hbelow|]. intros c Hc.
    eapply Forall_impl; [apply Hc|]. intros m Hm. simpl in Hm.
    destruct (index (properties m)) as [i|]; [|done]. exists i.
    split; [done|]. simpl in Hm. by apply negb_true_iff, Z.eqb_neq in Hm.
  - apply (scan_inv _ (reverse plan_nodes) ∅); [|apply dict_inv_empty|done].
    apply Forall_forall. intros x Hx. by apply elem_of_reverse.
Qed.

Lemma X8_returned_tree_shape_witness :
  (index (MkPlanNode (Some 0) "A" "Zero" [MkChildLink 2; MkChildLink 1]) = None
   ∨ index (MkPlanNode (Some 0) "A" "Zero" [MkChildLink 2; MkChildLink 1])
     = Some 0)
  ∧ Forall (λ m, ∃ i, index (properties m) = Some i ∧ i ≠ 0)
           [MkNode (MkPlanNode (Some 2) "B" "Two" []) [];
            MkNode (MkPlanNode (Some 1) "B" "One" []) []]
  ∧ Forall (λ m, properties m ∈ zero_subtree_plan ∧ children_in_link_order m)
           [MkNode (MkPlanNode (Some 0) "A" "Zero" [MkChildLink 2; MkChildLink 1])
              [MkNode (MkPlanNode (Some 2) "B" "Two" []) [];
               MkNode (MkPlanNode (Some 1) "B" "One" []) []];
            MkNode (MkPlanNode (Some 2) "B" "Two" []) [];
            MkNode (MkPlanNode (Some 1) "B" "One" []) []].
Proof.
  apply (X8_returned_tree_shape zero_subtree_plan
           (MkNode (MkPlanNode (Some 0) "A" "Zero" [MkChildLink 2; MkChildLink 1])
              [MkNode (MkPlanNode (Some 2) "B" "Two" []) [];
               MkNode (MkPlanNode (Some 1) "B" "One" []) []])).
  reflexivity.
Defined.

(** The diamond: the record with two parents gives two nodes, so the tree
    has five nodes for four records. *)
Example diamond_unfolds :
  _ConvertToTree diamond_plan
  = Returned (Some
      (MkNode (MkPlanNode None "R" "X" [MkChildLink 1; MkChildLink 2])
         [MkNode (MkPlanNode (Some 1) "A" "Left" [MkChildLink 3])
            [MkNode (MkPlanNode (Some 3) "B" "Shared" []) []];
          MkNode (MkPlanNode (Some 2) "A" "Right" [MkChildLink 3])
            [MkNode (MkPlanNode (Some 3) "B" "Shared" []) []]])).
Proof. reflexivity. Qed.

(** X9. The builder does not need the references to form a tree.  When
    the scan reaches a record [r] whose index is absent or [0] (every
    record after it has a non-zero index), the indices after [r] are
    unique and every link names a record placed after the linking one,
    the builder returns the one tree unfolding of [r]: a record that
    several links name is unfolded under each of them. *)
Theorem X9_unfolds_shared_records pre r post :
  truthy (index r) = false →
  Forall (λ x, is_Some (index x) ∧ index x ≠ Some 0) post →
  NoDup (indices post) →
  refs_forward (r :: post) →
  ∃ n, _ConvertToTree (pre ++ r :: post) = Returned (Some n)
       ∧ tree_of (r :: post) r n
       ∧ ∀ n', tree_of (r :: post) r n' → n' = n.
Proof.
  intros Hr Hpost Hnd Hfwd.
  assert (Forall (λ x, truthy (index x) = true) post) as Htruthy.
  { eapply Forall_impl; [apply Hpost|]. intros x. apply truthy_true. }
  destruct (convert_reaches r post Htruthy Hfwd Hr) as (d & cs & Hd & Hcs & Hres).
  assert (tree_of (r :: post) r (MkNode r cs)) as Htree.
  { assert (Forall (λ x, x ∈ r :: post) post) as Hrecs.
    { apply Forall_forall. intros x Hx. by right. }
    eapply attach_tree; [done..| |done]. by apply run_tree. }
  exists (MkNode r cs). split_and!; [apply Hres|done|].
  intros n' Hn'. eapply tree_of_unique; [|done..].
  rewrite indices_cons. destruct (index r) as [i|] eqn:Hi; [|done].
  apply NoDup_cons. split; [|done].
  simpl in Hr. apply negb_false_iff, Z.eqb_eq in Hr. subst i.
  by apply zero_not_index.
Qed.

Lemma X9_unfolds_shared_records_witness :
  ∃ n, _ConvertToTree
         ([] ++ MkPlanNode None "R" "X" [MkChildLink 1; MkChildLink 2]
             :: [MkPlanNode (Some 1) "A" "Left" [MkChildLink 3];
                 MkPlanNode (Some 2) "A" "Right" [MkChildLink 3];
                 MkPlanNode (Some 3) "B" "Shared" []])
       = Returned (Some n)
       ∧ tree_of (MkPlanNode None "R" "X" [MkChildLink 1; MkChildLink 2]
                    :: [MkPlanNode (Some 1) "A" "Left" [MkChildLink 3];
                        MkPlanNode (Some 2) "A" "Right" [MkChildLink 3];
                        MkPlanNode (Some 3) "B" "Shared" []])
                 (MkPlanNode None "R" "X" [MkChildLink 1; MkChildLink 2]) n
       ∧ ∀ n', tree_of (MkPlanNode None "R" "X" [MkChildLink 1; MkChildLink 2]
                          :: [MkPlanNode (Some 1) "A" "Left" [MkChildLink 3];
                              MkPlanNode (Some 2) "A" "Right" [MkChildLink 3];
                              MkPlanNode (Some 3) "B" "Shared" []])
                       (MkPlanNode None "R" "X" [MkChildLink 1; MkChildLink 2])
                       n' → n' = n.
Proof.
  apply (X9_unfolds_shared_records []
           (MkPlanNode None "R" "X" [MkChildLink 1; MkChildLink 2])
           [MkPlanNode (Some 1) "A" "Left" [MkChildLink 3];
            MkPlanNode (Some 2) "A" "Right" [MkChildLink 3];
            MkPlanNode (Some 3) "B" "Shared" []]).
  - reflexivity.
  - repeat constructor; (by eexists) || done.
  - compute_done.
  - compute_done.
Defined.

(** X10. When several records carry the same index, a link resolves to
    the nearest one: the child attached for a link of the record the scan
    returns at was built from the first record placed after it that
    carries the named index (the later records with that index were
    overwritten in [node_dict]). *)
Theorem X10_duplicate_index_nearest pre r post :
  truthy (index r) = false →
  Forall (λ x, is_Some (index x) ∧ index x ≠ Some 0) post →
  refs_forward (r :: post) →
  ∃ cs, _ConvertToTree (pre ++ r :: post) = Returned (Some (MkNode r cs))
        ∧ Forall2 (λ link c, first_with_index (childIndex link) post
                             = Some (properties c))
                  (childLinks r) cs.
Proof.
  intros Hr Hpost Hfwd.
  assert (Forall (λ x, truthy (index x) = true) post) as Htruthy.
  { eapply Forall_impl; [apply Hpost|]. intros x. apply truthy_true. }
  destruct (convert_reaches r post Htruthy Hfwd Hr) as (d & cs & Hd & Hcs & Hres).
  exists cs. split; [apply Hres|].
  apply attach_Returned in Hcs as (cs' & -> & Hcs). simpl.
  eapply Forall2_impl; [apply Hcs|]. intros link c Hc. simpl in Hc.
  by eapply run_first_with_index.
Qed.

Lemma X10_duplicate_index_nearest_witness :
  ∃ cs, _ConvertToTree ([] ++ MkPlanNode None "R" "X" [MkChildLink 1]
                           :: [MkPlanNode (Some 1) "A" "Near" [];
                               MkPlanNode (Some 1) "B" "Far" []])
        = Returned (Some (MkNode (MkPlanNode None "R" "X" [MkChildLink 1]) cs))
        ∧ Forall2 (λ link c,
                     first_with_index (childIndex link)
                       [MkPlanNode (Some 1) "A" "Near" [];
                        MkPlanNode (Some 1) "B" "Far" []]
                     = Some (properties c))
                  (childLinks (MkPlanNode None "R" "X" [MkChildLink 1])) cs.
Proof.
  apply (X10_duplicate_index_nearest []
           (MkPlanNode None "R" "X" [MkChildLink 1])
           [MkPlanNode (Some 1) "A" "Near" [];
            MkPlanNode (Some 1) "B" "Far" []]).
  - reflexivity.
  - repeat constructor; (by eexists) || done.
  - compute_done.
Defined.

(** X11. A root sentinel placed last is scanned first, with an empty
    [node_dict]: whatever precedes it, the builder returns its node as a
    leaf when it has no links, and raises the [KeyError] of its first
    link otherwise.  A plan listed parents-last therefore always fails. *)
Theorem X11_sentinel_last pre r :
  truthy (index r) = false →
  _ConvertToTree (pre ++ [r])
  = match childLinks r with
    | [] => Returned (Some (MkNode r []))
    | link :: _ => Raised (KeyError (childIndex link))
    end.
Proof.
  intros Hr. unfold _ConvertToTree.
  rewrite reverse_app. change (reverse [r]) with [r]. cbn [app scan].
  destruct (childLinks r) as [|link links] eqn:Hlinks.
  - rewrite (body_falsy r ∅ []); [done| |done]. by rewrite Hlinks.
  - unfold body. rewrite Hlinks. cbn [attach]. by rewrite lookup_empty.
Qed.

Lemma X11_sentinel_last_witness :
  _ConvertToTree ([two_child_1] ++ [MkPlanNode None "R" "X" [MkChildLink 1]])
  = Raised (KeyError 1).
Proof.
  apply (X11_sentinel_last [two_child_1]
           (MkPlanNode None "R" "X" [MkChildLink 1])).
  reflexivity.
Defined.

(** ** Statistics *)

Section Statistics.
Implicit Types (properties : list Property) (k d : string).

Lemma lookup_filter (P : Property → Prop) `{!∀ p, Decision (P p)}
    properties k d :
  (∀ p, key p = k → P p) →
  _GetAdditionalProperty (filter P properties) k d
  = _GetAdditionalProperty properties k d.
Proof.
  intros HP. induction properties as [|p properties IH]; [done|].
  destruct (decide (P p)) as [Hp|Hp].
  - rewrite filter_cons_True by done. simpl. by rewrite IH.
  - rewrite filter_cons_False by done. simpl.
    destruct (String.eqb_spec (key p) k) as [Hk|_]; [|done].
    destruct Hp. by apply HP.
Qed.

Lemma lookup_provenance properties k d :
  _GetAdditionalProperty properties k d = Some d
  ∨ ∃ p, p ∈ properties ∧ key p = k
         ∧ value p = Some (_GetAdditionalProperty properties k d).
Proof.
  induction properties as [|p properties IH]; [by left|]. simpl.
  destruct (String.eqb_spec (key p) k) as [Hk|_].
  - destruct (value p) as [v|] eqn:Hv; [|by left].
    right. exists p. split_and!; [by left|done..].
  - destruct IH as [?|(q & ? & ? & ?)]; [by left|].
    right. exists q. split_and!; [by right|done..].
Qed.

End Statistics.

(** X12. A look-up in a concatenation is decided by the first list as
    soon as the key occurs there, with or without a value; the second
    list is consulted only when the key does not occur in the first. *)
Theorem X12_lookup_concatenation l1 l2 k d :
  _GetAdditionalProperty (l1 ++ l2) k d
  = if decide (Exists (λ p, key p = k) l1)
    then _GetAdditionalProperty l1 k d
    else _GetAdditionalProperty l2 k d.
Proof.
  induction l1 as [|p l1 IH]; cbn [app _GetAdditionalProperty].
  { rewrite decide_False; [done|]. by intros ?%Exists_nil. }
  destruct (String.eqb_spec (key p) k) as [Hk|Hk].
  - rewrite decide_True; [done|]. by left.
  - rewrite IH. destruct (decide (Exists _ l1)) as [Hl1|Hl1].
    + rewrite decide_True; [done|]. by right.
    + rewrite decide_False; [done|]. by intros [?|?]%Exists_cons.
Qed.

(** X13. A look-up never returns a value stored under another key: the
    result is the default, or what the attribute [value] of an entry of
    the list that has the searched key holds. *)
Theorem X13_lookup_provenance properties k d :
  _GetAdditionalProperty properties k d = Some d
  ∨ ∃ p, p ∈ properties ∧ key p = k
         ∧ value p = Some (_GetAdditionalProperty properties k d).
Proof. apply lookup_provenance. Qed.

(** X14. Whatever the property list, [stats] has exactly the four labels
    "total_elapsed_time", "cpu_time", "rows_returned" and "rows_scanned",
    and each of its values is "Unknown" or the value (what the attribute
    [value] holds) of a property whose key is one of "elapsed_time",
    "cpu_time", "rows_returned" and "rows_scanned". *)
Theorem X14_aggregate_stats_labels additionalProperties :
  (∀ label, is_Some (aggregate_stats additionalProperties !! label)
            ↔ label ∈ stat_labels)
  ∧ ∀ label v,
      aggregate_stats additionalProperties !! label = Some v →
      v = Some "Unknown"
      ∨ ∃ p, p ∈ additionalProperties ∧ key p ∈ stat_keys ∧ value p = Some v.
Proof.
  assert (∀ k v, k ∈ stat_keys →
            _GetAdditionalProperty additionalProperties k "Unknown" = v →
            v = Some "Unknown"
            ∨ ∃ p, p ∈ additionalProperties ∧ key p ∈ stat_keys
                   ∧ value p = Some v) as Hprov.
  { intros k v Hk <-.
    destruct (lookup_provenance additionalProperties k "Unknown")
      as [?|(p & ? & <- & ?)]; [by left|].
    right. by exists p. }
  unfold aggregate_stats, stat_labels. split.
  - intros label. rewrite !lookup_insert_is_Some', lookup_empty, !elem_of_cons,
      elem_of_nil.
    split; [|intros [->|[->|[->|[->|[]]]]]; auto 6].
    intros [<-|[<-|[<-|[<-|[x Hx]]]]]; [auto 6..|done].
  - intros label v. rewrite !lookup_insert.
    repeat case_decide; try (by rewrite lookup_empty);
      intros [= <-]; eapply Hprov; try done; unfold stat_keys;
      rewrite !elem_of_cons; auto 6.
Qed.

Lemma X14_aggregate_stats_labels_witness :
  aggregate_stats stat_example !! "total_elapsed_time" = Some (Some "5ms")
  ∧ (Some "5ms" = Some "Unknown"
     ∨ ∃ p, p ∈ stat_example ∧ key p ∈ stat_keys
            ∧ value p = Some (Some "5ms")).
Proof.
  split; [reflexivity|].
  apply (proj2 (X14_aggregate_stats_labels stat_example) "total_elapsed_time").
  reflexivity.
Defined.

(** X15. What [DisplayQueryAggregateStats] hands to the printer depends
    only on the properties keyed "elapsed_time", "cpu_time",
    "rows_returned" and "rows_scanned": dropping all the other
    properties, wherever they stand in the list (in particular one keyed
    by the label "total_elapsed_time"), changes nothing. *)
Theorem X15_aggregate_stats_other_keys
    (Print : ∀ Data : Type, Data → string → Out → Out)
    additionalProperties out :
  DisplayQueryAggregateStats Print
    (filter (λ p, key p ∈ stat_keys) additionalProperties) out
  = DisplayQueryAggregateStats Print additionalProperties out.
Proof.
  unfold DisplayQueryAggregateStats, aggregate_stats.
  rewrite !lookup_filter; [done|intros p ->; unfold stat_keys..];
    rewrite !elem_of_cons; auto 6.
Qed.

(** ** The table format of [DisplayQueryResults] *)

Lemma join_snoc sep l x :
  join sep (l ++ [x])
  = match l with [] => x | _ => join sep l +:+ sep +:+ x end.
Proof.
  induction l as [|a l IH]; [done|].
  destruct l as [|b l]; [done|].
  change (a +:+ sep +:+ join sep ((b :: l) ++ [x])
          = (a +:+ sep +:+ join sep (b :: l)) +:+ sep +:+ x).
  by rewrite IH, !append_assoc.
Qed.

(** X16. The columns of the table format are numbered by the position of
    their field: without fields the format is empty (the printer gets
    "table()"), and adding a field at the end appends the column of that
    field, sliced at the position it has in the list, after a comma,
    leaving the columns before it as they were. *)
Theorem X16_table_format_columns :
  table_format [] = ""
  ∧ (∀ f, table_format [f] = column_format 0 f)
  ∧ ∀ fields f g,
      table_format ((f :: fields) ++ [g])
      = table_format (f :: fields) +:+ ","
          +:+ column_format (S (length fields)) g.
Proof.
  split_and!; [done..|]. intros fields f g. unfold table_format.
  rewrite imap_app. cbn [imap]. rewrite join_snoc.
  cbn [length compose]. by rewrite Nat.add_0_r.
Qed.
